(** * Rate-limit handling of mailerlite-api-v2-node: a shallow embedding

    The development follows the two TypeScript modules that implement the
    rate-limit layer:

    - [rateLimit.ts]      : class [RateLimitHandler] (header parsing, the
                            bounded retry in [handleRateLimit]);
    - [rateLimitUtils.ts] : class [RateLimitUtils] (pure helpers over a parsed
                            state) and class [RateLimitBatchProcessor].

    Part 1 gives the definitions, Part 2 the lemmas and theorems on the
    retry, the helpers, the parser and the batch processor, Part 3 further
    properties of the same code, of [shouldThrottle] and of the wrapper
    [withRateLimit]. *)

From Stdlib Require Import ZArith Lia Bool Ascii String DecimalString.
From Stdlib Require Import DecimalZ DecimalPos.
From stdpp Require Import base option list strings gmap sorting.

Local Open Scope Z_scope.

(* ===================================================================== *)
(** * Part 1: definitions                                                *)
(* ===================================================================== *)

(** ** JavaScript values used by the two modules *)

Module JS.

(** A JavaScript [number], restricted to the values the rate-limit code
    handles: integers, [NaN] and the two infinities.  An integer stands for
    the double of that value, so the model is the code on integers a double
    holds exactly (up to 2^53 in absolute value); sums, differences and
    products are then exact as long as the result is such an integer too.
    The only places where the source forms a non-integer are
    [Math.ceil(a / b)], [Math.round((a / b) * 100)] and [Math.floor(x * 0.1)];
    they are given as one operation each, computed exactly, and agree with
    the double computation on the ranges stated with each of them.  The sign
    of zero is not represented. *)
Inductive number : Type :=
| NaN
| Infinity (negative : bool)
| Int (z : Z).

(** Comparison of two numbers; [None] when one of them is [NaN]. *)
Definition compare (a b : number) : option comparison :=
  match a, b with
  | NaN, _ | _, NaN => None
  | Int x, Int y => Some (x ?= y)
  | Infinity s, Infinity s' =>
      Some (if Bool.eqb s s' then Eq else if s then Lt else Gt)
  | Infinity s, Int _ => Some (if s then Lt else Gt)
  | Int _, Infinity s => Some (if s then Gt else Lt)
  end.

(** [a < b], [a <= b], [a > b], [a >= b]: all false on [NaN]. *)
Definition lt (a b : number) : bool :=
  match compare a b with Some Lt => true | _ => false end.
Definition le (a b : number) : bool :=
  match compare a b with Some Lt | Some Eq => true | _ => false end.
Definition gt (a b : number) : bool := lt b a.
Definition ge (a b : number) : bool := le b a.

(** [a === b] on numbers. *)
Definition strict_eq (a b : number) : bool :=
  match compare a b with Some Eq => true | _ => false end.

Definition neg (a : number) : number :=
  match a with
  | NaN => NaN
  | Infinity s => Infinity (negb s)
  | Int z => Int (- z)
  end.

Definition add (a b : number) : number :=
  match a, b with
  | NaN, _ | _, NaN => NaN
  | Int x, Int y => Int (x + y)
  | Infinity s, Int _ | Int _, Infinity s => Infinity s
  | Infinity s, Infinity s' => if Bool.eqb s s' then Infinity s else NaN
  end.

Definition sub (a b : number) : number := add a (neg b).

Definition mul (a b : number) : number :=
  match a, b with
  | NaN, _ | _, NaN => NaN
  | Int x, Int y => Int (x * y)
  | Infinity s, Int z | Int z, Infinity s =>
      if z =? 0 then NaN else Infinity (xorb s (z <? 0))
  | Infinity s, Infinity s' => Infinity (xorb s s')
  end.

(** [Math.max(a, b)] and [Math.min(a, b)]: [NaN] as soon as one argument
    is. *)
Definition Math_max (a b : number) : number :=
  match compare a b with
  | None => NaN
  | Some Lt => b
  | Some _ => a
  end.

Definition Math_min (a b : number) : number :=
  match compare a b with
  | None => NaN
  | Some Gt => b
  | Some _ => a
  end.

(** [Math.pow(2, n)] for an integer exponent [n >= 0]. *)
Definition Math_pow2 (n : Z) : number := Int (2 ^ n).

(** Exact roundings of the quotient [n / d] of two integers, [d <> 0].
    [Z.div] rounds towards minus infinity for either sign of [d]. *)
Definition floor_quot (n d : Z) : Z := n / d.
Definition ceil_quot (n d : Z) : Z := - ((- n) / d).
(** [Math.round] rounds half-way cases up: [floor (x + 1/2)]. *)
Definition round_quot (n d : Z) : Z := (2 * n + d) / (2 * d).

(** [rnd (a / b)]: the IEEE quotient followed by a rounding to an integer,
    which leaves [NaN] and the infinities as they are. *)
Definition quot_then (rnd : Z -> Z -> Z) (a b : number) : number :=
  match a, b with
  | NaN, _ | _, NaN => NaN
  | Infinity _, Infinity _ => NaN
  | Infinity s, Int d => Infinity (xorb s (d <? 0))
  | Int _, Infinity _ => Int 0
  | Int n, Int d =>
      if d =? 0 then (if n =? 0 then NaN else Infinity (n <? 0))
      else Int (rnd n d)
  end.

(** [Math.ceil(a / b)].  For integers below 2^53 the correctly rounded
    quotient of two integers lies on the same side of every integer as the
    exact one, so the ceiling is that of the exact quotient. *)
Definition Math_ceil_div (a b : number) : number := quot_then ceil_quot a b.

(** [Math.round((a / b) * 100)], as the half-up rounding of the exact value
    of [100 * a / b].  The code rounds the quotient to a double, then the
    product, then to an integer: for [0 <= a <= b < 2^32] the two agree
    except possibly when [100 * a / b] lies exactly half-way between two
    integers (40 and 23 give 57 in the code, 58 here), and they agree when
    [a = b] or [a = 0]. *)
Definition Math_round_percent (a b : number) : number :=
  quot_then (fun n d => round_quot (100 * n) d) a b.

(** [Math.floor(a * 0.1)], as the floor of the exact tenth.  The code
    multiplies by the double nearest to 0.1 and rounds the product: the two
    agree for integers below 10^15 in absolute value and differ for some
    larger ones (6755399441055749 gives 675539944105575 in the code). *)
Definition Math_floor_tenth (a : number) : number :=
  match a with
  | Int z => Int (floor_quot z 10)
  | other => other
  end.

(** [String(a)], as used by template literals. *)
Definition toString (a : number) : string :=
  match a with
  | NaN => "NaN"
  | Infinity false => "Infinity"
  | Infinity true => "-Infinity"
  | Int z => NilZero.string_of_int (Z.to_int z)
  end.

(** Truthiness of a header value read from an object: [undefined] and the
    empty string are falsy, every other string is truthy. *)
Definition truthy (v : option string) : bool :=
  match v with
  | None => false
  | Some s => negb (String.eqb s "")
  end.

(** *** [parseInt(s, 10)]

    Leading white space is skipped, then an optional sign, then the longest
    run of decimal digits is read; without a digit the result is [NaN].
    Strings are sequences of bytes here, so of the white-space characters only
    the ASCII ones (tab to carriage return, and space) are recognised.  The
    value is that of the numeral, which is what the code returns for numerals
    up to 2^53 - 1 in absolute value; the code rounds a longer numeral to a
    double ("9007199254740993" gives 9007199254740992). *)

Definition is_white_space (c : ascii) : bool :=
  let n := nat_of_ascii c in
  ((9 <=? n) && (n <=? 13))%nat || (n =? 32)%nat.

Fixpoint trim_start (s : string) : string :=
  match s with
  | String c s' => if is_white_space c then trim_start s' else s
  | EmptyString => EmptyString
  end.

Definition digit_value (c : ascii) : option Z :=
  let n := nat_of_ascii c in
  if ((48 <=? n) && (n <=? 57))%nat then Some (Z.of_nat n - 48) else None.

(** Value of the longest prefix of decimal digits, [None] when that prefix
    is empty. *)
Fixpoint digits (acc : option Z) (s : string) : option Z :=
  match s with
  | String c s' =>
      match digit_value c with
      | Some d => digits (Some (10 * default 0 acc + d)) s'
      | None => acc
      end
  | EmptyString => acc
  end.

Definition parseInt (s : string) : number :=
  let t := trim_start s in
  let '(negative, body) :=
    match t with
    | String "-" r => (true, r)
    | String "+" r => (false, r)
    | _ => (false, t)
    end in
  match digits None body with
  | Some v => Int (if negative then - v else v)
  | None => NaN
  end.

(** [hay.includes(needle)] *)
Fixpoint includes (needle hay : string) : bool :=
  String.prefix needle hay ||
  match hay with
  | String _ hay' => includes needle hay'
  | EmptyString => false
  end.

(** [Array.prototype.slice(start, end)] for integer arguments: negative
    indices count from the end, and both are clamped to the array. *)
Definition slice_index (len k : Z) : Z :=
  if k <? 0 then Z.max (len + k) 0 else Z.min k len.

Definition slice {A} (l : list A) (start stop : Z) : list A :=
  let len := Z.of_nat (length l) in
  let from := slice_index len start in
  let to := slice_index len stop in
  take (Z.to_nat (to - from)) (drop (Z.to_nat from) l).

(** A [Date] object is its time value in milliseconds since the epoch,
    [NaN] for an invalid date. *)
Record Date : Type := mkDate { getTime : number }.

End JS.

Import JS.

(** ** The shared types of [types/index.ts] *)

(** [interface RateLimitHeaders] *)
Record RateLimitHeaders : Type := mkRateLimitHeaders {
  limit : number;
  remaining : number;
  reset : Date;
  retryAfter : number;
}.

(** [interface RateLimitError extends Error]: the discriminator
    [isRateLimitError] has the literal type [true], so it is the constructor
    of the value rather than a field. *)
Record RateLimitError : Type := mkRateLimitError {
  message : string;
  rateLimitHeaders : RateLimitHeaders;
}.

(** The part of an [AxiosResponse] the handler reads: the status code and the
    header object (axios lower-cases header names). *)
Record AxiosResponse : Type := mkAxiosResponse {
  status : Z;
  headers : gmap string string;
}.

(** An [AxiosError]: an [Error] that has a [response] property, [undefined]
    when no response was received. *)
Record AxiosError : Type := mkAxiosError {
  response : option AxiosResponse;
}.

(** What a promise can be rejected with: an error object that has a
    [response] property (an [AxiosError]), the [RateLimitError] made by
    [createRateLimitError] (an [Error] without that property), or any other
    value, that is one the test below does not let through: an [Error]
    without that property, such as one raised before a response exists, or a
    value that is not an [Error], whatever its properties. *)
Inductive thrown : Type :=
| ThrownAxios (e : AxiosError)
| ThrownRateLimit (e : RateLimitError)
| ThrownOther (description : string).

(** [retryError instanceof Error && "response" in retryError] *)
Definition has_response (t : thrown) : option AxiosError :=
  match t with
  | ThrownAxios e => Some e
  | _ => None
  end.

(** The settlement of a promise. *)
Inductive settled (V : Type) : Type :=
| Resolved (v : V)
| Rejected (t : thrown).
Arguments Resolved {V} v.
Arguments Rejected {V} t.

(** A state whose four fields are integers, [reset] being a valid date with
    time value [resetAt]: what the parser yields on well-formed headers, and
    what the test-suite builds by hand. *)
Definition integer_state (limit remaining resetAt retryAfter : Z) : RateLimitHeaders :=
  {| limit := Int limit;
     remaining := Int remaining;
     reset := mkDate (Int resetAt);
     retryAfter := Int retryAfter |}.

(** The four header names read by [parseRateLimitHeaders]. *)
Definition required_headers : list string :=
  [ "x-ratelimit-limit"; "x-ratelimit-remaining";
    "x-ratelimit-reset"; "x-ratelimit-retry-after" ]%string.

(** ** [class RateLimitHandler] (rateLimit.ts) *)

Module RateLimitHandler.

Section WithEnvironment.

(** The world outside the handler: [W] is its state, [V] the type of a
    response.  [Date_parse s] is the time value of [new Date(s)] (the
    accepted formats are implementation-defined), [Date_now] reads the
    clock, [sleep ms] is what awaiting [setTimeout(resolve, ms)] does to the
    world. *)
Context {W V : Type}.
Variable Date_parse : string -> number.
Variable Date_now : W -> Z.
Variable sleep : number -> W -> W.

(** The private fields set by the constructor.  An observer is a function
    on the world; observers are taken to return normally. *)
Record t : Type := mk {
  rateLimitRetryAttempts : number;
  rateLimitRetryDelay : number;
  onRateLimitHit : option (RateLimitHeaders -> W -> W);
  onRateLimitRetry : option (Z -> RateLimitHeaders -> W -> W);
}.

(** [RateLimitOptions] and the constructor with its defaults. *)
Record RateLimitOptions : Type := mkOptions {
  opt_rateLimitRetryAttempts : option number;
  opt_rateLimitRetryDelay : option number;
  opt_onRateLimitHit : option (RateLimitHeaders -> W -> W);
  opt_onRateLimitRetry : option (Z -> RateLimitHeaders -> W -> W);
}.

Definition constructor (options : RateLimitOptions) : t :=
  {| rateLimitRetryAttempts := default (Int 3) (opt_rateLimitRetryAttempts options);
     rateLimitRetryDelay := default (Int 1000) (opt_rateLimitRetryDelay options);
     onRateLimitHit := opt_onRateLimitHit options;
     onRateLimitRetry := opt_onRateLimitRetry options |}.

(** What the handler does to the outside, in order. *)
Inductive event : Type :=
| HitFired (h : RateLimitHeaders)
| RetryFired (attempt : Z) (h : RateLimitHeaders)
| Slept (ms : number)
| Reissued.

Definition parseRateLimitHeaders (response : AxiosResponse)
  : option RateLimitHeaders :=
  let headers := headers response in
  let limit := headers !! "x-ratelimit-limit"%string in
  let remaining := headers !! "x-ratelimit-remaining"%string in
  let reset := headers !! "x-ratelimit-reset"%string in
  let retryAfter := headers !! "x-ratelimit-retry-after"%string in
  if negb (truthy limit) || negb (truthy remaining)
     || negb (truthy reset) || negb (truthy retryAfter)
  then None
  else
    Some {| limit := parseInt (default ""%string limit);
            remaining := parseInt (default ""%string remaining);
            reset := mkDate (Date_parse (default ""%string reset));
            retryAfter := parseInt (default ""%string retryAfter) |}.

(** [error.response?.status === 429] *)
Definition isRateLimitError (error : AxiosError) : bool :=
  match response error with
  | Some r => status r =? 429
  | None => false
  end.

(** The headers of the error's response, when there is one. *)
Definition headers_of_error (error : AxiosError) : option RateLimitHeaders :=
  match response error with
  | Some r => parseRateLimitHeaders r
  | None => None
  end.

Definition createRateLimitError (error : AxiosError) (w : W) : RateLimitError :=
  let rateLimitHeaders := headers_of_error error in
  {| message :=
       "Rate limit exceeded. " +:+
       match rateLimitHeaders with
       | Some h => "Retry after " +:+ toString (retryAfter h) +:+ " seconds."
       | None => "Please try again later."
       end;
     rateLimitHeaders :=
       match rateLimitHeaders with
       | Some h => h
       | None => {| limit := Int 60;
                    remaining := Int 0;
                    reset := mkDate (Int (Date_now w + 60000));
                    retryAfter := Int 60 |}
       end |}.

(** Calling an optional observer. *)
Definition fire {A} (observer : option (A -> W -> W)) (a : A) (e : event)
    (st : W * list event) : W * list event :=
  match observer with
  | Some f => (f a (fst st), snd st ++ [e])
  | None => st
  end.

(** [handleRateLimit(error, retryFn, attempt)].  The recursion of the source
    is on the retry's failure; [fuel] bounds its depth and [None] means the
    bound was reached.  The state is the world and the events so far. *)
Fixpoint handleRateLimit (fuel : nat) (this : t) (error : AxiosError)
    (retryFn : W -> settled V * W) (attempt : Z) (st : W * list event)
  : option (settled V * (W * list event)) :=
  match fuel with
  | O => None
  | S fuel' =>
      if negb (isRateLimitError error)
         || ge (Int attempt) (rateLimitRetryAttempts this)
      then Some (Rejected (ThrownRateLimit (createRateLimitError error (fst st))), st)
      else
        let retry (st : W * list event) :=
          let '(r, w') := retryFn (fst st) in
          let st' := (w', snd st ++ [Reissued]) in
          match r with
          | Resolved v => Some (Resolved v, st')
          | Rejected retryError =>
              match has_response retryError with
              | Some e => handleRateLimit fuel' this e retryFn (attempt + 1) st'
              | None => Some (Rejected retryError, st')
              end
          end in
        match headers_of_error error with
        | Some rateLimitHeaders =>
            let st :=
              if attempt =? 0
              then fire (onRateLimitHit this) rateLimitHeaders
                        (HitFired rateLimitHeaders) st
              else st in
            let st :=
              fire ((fun f => f (attempt + 1)) <$> onRateLimitRetry this)
                   rateLimitHeaders
                   (RetryFired (attempt + 1) rateLimitHeaders) st in
            let delayMs :=
              add (mul (retryAfter rateLimitHeaders) (Int 1000))
                  (rateLimitRetryDelay this) in
            retry (sleep delayMs (fst st), snd st ++ [Slept delayMs])
        | None =>
            let fallbackDelay :=
              mul (Math_pow2 attempt) (rateLimitRetryDelay this) in
            retry (sleep fallbackDelay (fst st), snd st ++ [Slept fallbackDelay])
        end
  end.

(** Reading a trace: the re-issues of the request, the total number of
    times the request was issued in the call sequence (the attempt whose
    failure is handed to [handleRateLimit], and one per re-issue), and the
    arguments of the two observers. *)
Definition is_reissue (e : event) : bool :=
  match e with Reissued => true | _ => false end.

Definition reissues (tr : list event) : nat :=
  length (List.filter is_reissue tr).

Definition attempts (tr : list event) : nat := S (reissues tr).

Definition hits (tr : list event) : list RateLimitHeaders :=
  omap (fun e => match e with HitFired h => Some h | _ => None end) tr.

Definition retries (tr : list event) : list (Z * RateLimitHeaders) :=
  omap (fun e => match e with RetryFired n h => Some (n, h) | _ => None end) tr.

(** A failure with status 429 whose response carries the four headers, and
    the state parsed from them. *)
Definition quota_exceeded (e : AxiosError) (st : RateLimitHeaders) : Prop :=
  isRateLimitError e = true /\ headers_of_error e = Some st.

(** The delay slept on a failure with state [st]. *)
Definition delay_of (this : t) (st : RateLimitHeaders) : number :=
  add (mul (retryAfter st) (Int 1000)) (rateLimitRetryDelay this).

(** With both observers set: the world in which the request is re-issued
    after the failure number [attempt] with state [st] (the observers have
    run and the delay has elapsed), and the events up to that re-issue. *)
Definition world_at_reissue (this : t) (onHit : RateLimitHeaders -> W -> W)
    (onRetry : Z -> RateLimitHeaders -> W -> W)
    (attempt : Z) (st : RateLimitHeaders) (w : W) : W :=
  sleep (delay_of this st)
    (onRetry (attempt + 1) st (if attempt =? 0 then onHit st w else w)).

Definition events_of_retry (this : t) (attempt : Z) (st : RateLimitHeaders)
  : list event :=
  (if attempt =? 0 then [HitFired st] else [])
    ++ [RetryFired (attempt + 1) st; Slept (delay_of this st); Reissued].

End WithEnvironment.

End RateLimitHandler.

(** ** [class RateLimitUtils] (rateLimitUtils.ts) *)

Module RateLimitUtils.

(** [Boolean(error && error.isRateLimitError === true)]: of the values that
    can be thrown, only a [RateLimitError] carries the discriminator. *)
Definition isRateLimitError (error : thrown) : bool :=
  match error with
  | ThrownRateLimit _ => true
  | _ => false
  end.

Definition getRateLimitInfo (error : thrown) : option RateLimitHeaders :=
  match error with
  | ThrownRateLimit e => Some (rateLimitHeaders e)
  | _ => None
  end.

(** The helpers below call [new Date()]; [now] is the time value it
    returns. *)

Definition getWaitTime (headers : RateLimitHeaders) (now : Z) : number :=
  let resetTime := reset headers in
  if le (getTime resetTime) (Int now) then Int 0
  else if gt (remaining headers) (Int 0) then
    let timeUntilReset := sub (getTime resetTime) (Int now) in
    Math_ceil_div timeUntilReset (remaining headers)
  else sub (getTime resetTime) (Int now).

Definition shouldPause (headers : RateLimitHeaders) (threshold : number) : bool :=
  le (remaining headers) threshold.

Section Status.
(** [Date.prototype.toLocaleTimeString] depends on the host's locale. *)
Variable toLocaleTimeString : Date -> string.

Definition getRateLimitStatus (headers : RateLimitHeaders) : string :=
  let remaining := remaining headers in
  let total := limit headers in
  let resetTime := toLocaleTimeString (reset headers) in
  if strict_eq remaining (Int 0) then
    "Rate limit reached (0/" +:+ toString total +:+ "). Resets at " +:+ resetTime
  else if le remaining (Int 5) then
    "Rate limit warning: Only " +:+ toString remaining +:+ "/" +:+ toString total
      +:+ " requests remaining. Resets at " +:+ resetTime
  else
    "Rate limit status: " +:+ toString remaining +:+ "/" +:+ toString total
      +:+ " requests remaining. Resets at " +:+ resetTime.
End Status.

Definition getRateLimitUsagePercent (headers : RateLimitHeaders) : number :=
  let used := sub (limit headers) (remaining headers) in
  Math_round_percent used (limit headers).

Definition calculateBatchDelay (headers : RateLimitHeaders)
    (remainingOperations : number) (now : Z) : number :=
  if le (remaining headers) (Int 0) then
    Math_max (Int 0) (sub (getTime (reset headers)) (Int now))
  else if le remainingOperations (remaining headers) then Int 0
  else
    let timeUntilReset := sub (getTime (reset headers)) (Int now) in
    if le timeUntilReset (Int 0) then Int 0
    else Math_ceil_div timeUntilReset (remaining headers).

Definition willExceedRateLimit (headers : RateLimitHeaders)
    (additionalRequests : number) : bool :=
  lt (remaining headers) additionalRequests.

Definition getOptimalBatchSize (headers : RateLimitHeaders)
    (maxBatchSize : number) : number :=
  let buffer := Math_max (Int 5) (Math_floor_tenth (limit headers)) in
  let safeRemaining := Math_max (Int 0) (sub (remaining headers) buffer) in
  Math_min maxBatchSize safeRemaining.

(** [waitForRateLimit(headers)]: sleeps for the wait time when it is
    positive.  [slept] builds the trace entry of the caller. *)
Definition waitForRateLimit {W E} (Date_now : W -> Z) (sleep : number -> W -> W)
    (slept : number -> E) (headers : RateLimitHeaders) (st : W * list E)
  : W * list E :=
  let waitTime := getWaitTime headers (Date_now (fst st)) in
  if gt waitTime (Int 0)
  then (sleep waitTime (fst st), snd st ++ [slept waitTime])
  else st.

End RateLimitUtils.

(** ** [class RateLimitBatchProcessor] (rateLimitUtils.ts) *)

Module RateLimitBatchProcessor.

Section WithEnvironment.

(** [W] is the state of the world, [T] the type of the work items, [R] that
    of the results; the clock and the timer are as for the handler. *)
Context {W T R : Type}.
Variable Date_now : W -> Z.
Variable sleep : number -> W -> W.

(** The instance: the two accumulators are fields, set to empty arrays when
    the object is built. *)
Record t : Type := mk {
  items : list T;
  processor : T -> W -> settled R * W;
  results : list R;
  errors : list (T * thrown);
}.

Definition constructor (items : list T) (processor : T -> W -> settled R * W) : t :=
  {| items := items; processor := processor; results := []; errors := [] |}.

Inductive event : Type :=
| Processed (item : T) (outcome : settled R)
| ProgressFired (completed total : Z) (rateLimitInfo : option RateLimitHeaders)
| Slept (ms : number).

(** The optional progress observer, a function on the world, taken to
    return normally. *)
Definition progress : Type := Z -> Z -> option RateLimitHeaders -> W -> W.

Definition fire (onProgress : option progress) (completed total : Z)
    (info : option RateLimitHeaders) (st : W * list event) : W * list event :=
  match onProgress with
  | Some f => (f completed total info (fst st),
               snd st ++ [ProgressFired completed total info])
  | None => st
  end.

(** The variables of [processAll] that change while it runs. *)
Record frame : Type := mkFrame {
  self : t;
  completed : Z;
  env : W * list event;
}.

(** The body of the inner loop, for one item. *)
Definition process_item (onProgress : option progress) (total : Z)
    (item : T) (f : frame) : frame :=
  let '(outcome, w) := processor (self f) item (fst (env f)) in
  let st := (w, snd (env f) ++ [Processed item outcome]) in
  let '(this', st) :=
    match outcome with
    | Resolved result =>
        ({| items := items (self f); processor := processor (self f);
            results := results (self f) ++ [result];
            errors := errors (self f) |}, st)
    | Rejected error =>
        ({| items := items (self f); processor := processor (self f);
            results := results (self f);
            errors := errors (self f) ++ [(item, error)] |},
         if RateLimitUtils.isRateLimitError error then
           match RateLimitUtils.getRateLimitInfo error with
           | Some rateLimitInfo =>
               RateLimitUtils.waitForRateLimit Date_now sleep Slept rateLimitInfo
                 (fire onProgress (completed f) total (Some rateLimitInfo) st)
           | None => st
           end
         else st)
    end in
  let completed := completed f + 1 in
  {| self := this'; completed := completed;
     env := fire onProgress completed total None st |}.

(** The inner loop over one chunk. *)
Definition process_batch (onProgress : option progress) (total : Z)
    (batch : list T) (f : frame) : frame :=
  foldl (fun f item => process_item onProgress total item f) f batch.

(** The outer loop from index [i]; [fuel] bounds the number of chunks and
    [None] means the bound was reached. *)
Fixpoint chunks (fuel : nat) (onProgress : option progress) (total : Z)
    (batchSize : Z) (i : Z) (f : frame) : option frame :=
  match fuel with
  | O => None
  | S fuel' =>
      if i <? Z.of_nat (length (items (self f))) then
        let batch := slice (items (self f)) i (i + batchSize) in
        let f := process_batch onProgress total batch f in
        let f :=
          if i + batchSize <? Z.of_nat (length (items (self f))) then
            {| self := self f; completed := completed f;
               env := (sleep (Int 100) (fst (env f)), snd (env f) ++ [Slept (Int 100)]) |}
          else f in
        chunks fuel' onProgress total batchSize (i + batchSize) f
      else Some f
  end.

(** What [processAll] resolves to: the two arrays of the instance. *)
Record output : Type := mkOutput {
  out_results : list R;
  out_errors : list (T * thrown);
}.

(** [processAll(onProgress, batchSize = 10)], for an integer [batchSize].
    Returns the output, the instance afterwards and the world with the
    events of this call. *)
Definition processAll (fuel : nat) (this : t) (onProgress : option progress)
    (batchSize : option Z) (w : W) : option (output * t * (W * list event)) :=
  let batchSize := default 10 batchSize in
  let total := Z.of_nat (length (items this)) in
  match chunks fuel onProgress total batchSize 0
          {| self := this; completed := 0; env := (w, []) |} with
  | Some f =>
      Some ({| out_results := results (self f);
               out_errors := errors (self f) |},
            self f, env f)
  | None => None
  end.

(** Reading a trace. *)
Definition processed (tr : list event) : list (T * settled R) :=
  omap (fun e => match e with Processed x o => Some (x, o) | _ => None end) tr.

Definition progress_calls (tr : list event)
  : list (Z * Z * option RateLimitHeaders) :=
  omap (fun e => match e with
                 | ProgressFired c n info => Some (c, n, info)
                 | _ => None
                 end) tr.

(** The progress calls made after an item, i.e. without rate-limit detail. *)
Definition item_progress (tr : list event) : list (Z * Z) :=
  omap (fun e => match e with
                 | ProgressFired c n None => Some (c, n)
                 | _ => None
                 end) tr.

Definition successes (log : list (T * settled R)) : list R :=
  omap (fun p => match snd p with Resolved r => Some r | Rejected _ => None end) log.

Definition failures (log : list (T * settled R)) : list (T * thrown) :=
  omap (fun p => match snd p with
                 | Rejected e => Some (fst p, e)
                 | Resolved _ => None
                 end) log.

(** The states of the failures that are rate-limit errors. *)
Definition rate_limit_failures (log : list (T * settled R)) : list RateLimitHeaders :=
  omap (fun p => match snd p with
                 | Rejected e => RateLimitUtils.getRateLimitInfo e
                 | Resolved _ => None
                 end) log.

(** [advanced onProgress total xs f f']: from frame [f] to frame [f'] the
    items [xs] were handed to the processor, in order and once each, the
    outcome of each went to the end of [results] or of [errors], the counter
    grew by one per item and, when there is an observer, it was called with
    each new count, and once more for each rate-limit failure. *)
Definition advanced (onProgress : option progress) (total : Z)
    (xs : list T) (f f' : frame) : Prop :=
  exists log : list (T * settled R),
    log.*1 = xs /\
    items (self f') = items (self f) /\
    processor (self f') = processor (self f) /\
    results (self f') = results (self f) ++ successes log /\
    errors (self f') = errors (self f) ++ failures log /\
    completed f' = completed f + Z.of_nat (length xs) /\
    processed (snd (env f')) = processed (snd (env f)) ++ log /\
    item_progress (snd (env f')) =
      item_progress (snd (env f)) ++
      match onProgress with
      | Some _ => (fun c => (c, total)) <$> seqZ (completed f + 1) (Z.of_nat (length xs))
      | None => []
      end /\
    length (progress_calls (snd (env f'))) =
      (length (progress_calls (snd (env f))) +
       match onProgress with
       | Some _ => length xs + length (rate_limit_failures log)
       | None => 0
       end)%nat.

End WithEnvironment.

End RateLimitBatchProcessor.

(** ** The rest of [RateLimitHandler]: [shouldThrottle] *)

(** [shouldThrottle(response)]: throttle when no more than a tenth of the
    limit (and at least one request) is left; never without parsed headers. *)
Definition shouldThrottle (Date_parse : string -> number) (response : AxiosResponse)
  : bool :=
  match RateLimitHandler.parseRateLimitHeaders Date_parse response with
  | None => false
  | Some rateLimitHeaders =>
      let throttleThreshold :=
        Math_max (Int 1) (Math_floor_tenth (limit rateLimitHeaders)) in
      le (remaining rateLimitHeaders) throttleThreshold
  end.

(** ** [withRateLimit] (rateLimitUtils.ts) *)

Module Decorator.

Section WithEnvironment.

(** [W] is the state of the world and [R] the type of a result; [fn] is the
    wrapped function applied to the arguments of the call. *)
Context {W R : Type}.
Variable Date_now : W -> Z.
Variable sleep : number -> W -> W.

Inductive event : Type :=
| Called
| Warned (text : string)
| Waited (ms : number).

(** The value thrown by [throw lastError] when no call was made:
    [undefined]. *)
Definition undefined : thrown := ThrownOther "undefined".

(** The text given to [console.warn]. *)
Definition warning (attempt : Z) (maxRetries : number)
    (rateLimitInfo : RateLimitHeaders) : string :=
  "Rate limit hit (attempt " +:+ toString (Int (attempt + 1)) +:+ "/"
    +:+ toString (add maxRetries (Int 1)) +:+ "). Waiting "
    +:+ toString (retryAfter rateLimitInfo) +:+ " seconds...".

(** The [for] loop of the wrapper from [attempt] on; [lastError] is [None]
    while it is still [undefined]. [fuel] bounds the number of rounds and
    [None] means the bound was reached. *)
Fixpoint loop (fuel : nat) (fn : W -> settled R * W) (maxRetries : number)
    (attempt : Z) (lastError : option thrown) (st : W * list event)
  : option (settled R * (W * list event)) :=
  match fuel with
  | O => None
  | S fuel' =>
      if le (Int attempt) maxRetries then
        let '(r, w) := fn (fst st) in
        let st := (w, snd st ++ [Called]) in
        match r with
        | Resolved v => Some (Resolved v, st)
        | Rejected error =>
            if RateLimitUtils.isRateLimitError error then
              match RateLimitUtils.getRateLimitInfo error with
              | Some rateLimitInfo =>
                  if lt (Int attempt) maxRetries then
                    let st :=
                      (fst st,
                       snd st ++ [Warned (warning attempt maxRetries rateLimitInfo)]) in
                    let st :=
                      RateLimitUtils.waitForRateLimit Date_now sleep Waited
                        rateLimitInfo st in
                    loop fuel' fn maxRetries (attempt + 1) (Some error) st
                  else Some (Rejected error, st)
              | None => Some (Rejected error, st)
              end
            else Some (Rejected error, st)
        end
      else Some (Rejected (default undefined lastError), st)
  end.

(** [withRateLimit(fn, maxRetries = 3)(...args)] *)
Definition withRateLimit (fuel : nat) (fn : W -> settled R * W)
    (maxRetries : option number) (w : W)
  : option (settled R * (W * list event)) :=
  loop fuel fn (default (Int 3) maxRetries) 0 None (w, []).

Definition calls (tr : list event) : nat :=
  length (List.filter (fun e => match e with Called => true | _ => false end) tr).

Definition warnings (tr : list event) : nat :=
  length (List.filter (fun e => match e with Warned _ => true | _ => false end) tr).

End WithEnvironment.

End Decorator.

(** ** The batch job as the specification words it *)

(** A second account of the batch processor, written after section 4.5 of the
    specification and not after the code, to compare [processAll] with: the
    items are taken one at a time in input order; a success is appended to the
    results, a failure is recorded as (item, error) and the job goes on; on a
    rate-limit failure the observer is told the state and the job waits the
    computed wait time; after every item the observer is told the new count;
    between two chunks, that is after every [batchSize]-th item that is not
    the last, the job pauses 100 ms. *)
Module Sequential.

Section WithEnvironment.

Context {W T R : Type}.
Variable Date_now : W -> Z.
Variable sleep : number -> W -> W.
Variable process : T -> W -> settled R * W.
Variable onProgress : option (Z -> Z -> option RateLimitHeaders -> W -> W).
Variable total batchSize : Z.

(** The job so far: the successes and failures in order of completion, the
    number of items handled, the world, and what the observer was told. *)
Record job : Type := mkJob {
  succeeded : list R;
  failed : list (T * thrown);
  handled : Z;
  world : W;
  told : list (Z * Z * option RateLimitHeaders);
}.

Definition tell (count : Z) (info : option RateLimitHeaders) (j : job) : job :=
  match onProgress with
  | Some observer =>
      {| succeeded := succeeded j; failed := failed j; handled := handled j;
         world := observer count total info (world j);
         told := told j ++ [(count, total, info)] |}
  | None => j
  end.

Definition wait (ms : number) (j : job) : job :=
  {| succeeded := succeeded j; failed := failed j; handled := handled j;
     world := sleep ms (world j); told := told j |}.

(** The opportunistic pause after a quota-exceeded failure. *)
Definition quota_pause (error : thrown) (j : job) : job :=
  match error with
  | ThrownRateLimit e =>
      let j := tell (handled j) (Some (rateLimitHeaders e)) j in
      let waitTime :=
        RateLimitUtils.getWaitTime (rateLimitHeaders e) (Date_now (world j)) in
      if gt waitTime (Int 0) then wait waitTime j else j
  | _ => j
  end.

Definition one_item (j : job) (x : T) : job :=
  let '(outcome, w) := process x (world j) in
  let j :=
    match outcome with
    | Resolved r =>
        {| succeeded := succeeded j ++ [r]; failed := failed j;
           handled := handled j; world := w; told := told j |}
    | Rejected e =>
        quota_pause e
          {| succeeded := succeeded j; failed := failed j ++ [(x, e)];
             handled := handled j; world := w; told := told j |}
    end in
  tell (handled j + 1) None
    {| succeeded := succeeded j; failed := failed j;
       handled := handled j + 1; world := world j; told := told j |}.

Definition between_chunks (j : job) : job :=
  if (handled j mod batchSize =? 0) && (handled j <? total)
  then wait (Int 100) j
  else j.

Definition run (j : job) (work : list T) : job :=
  foldl (fun j x => between_chunks (one_item j x)) j work.

(** The job with earlier entries put before its own. *)
Definition after_entries (rs : list R) (es : list (T * thrown)) (j : job) : job :=
  {| succeeded := rs ++ succeeded j; failed := es ++ failed j;
     handled := handled j; world := world j; told := told j |}.

End WithEnvironment.

End Sequential.

(** The job a frame of [processAll] stands for. *)
Definition job_of {W T R : Type} (f : RateLimitBatchProcessor.frame (W := W) (T := T) (R := R))
  : Sequential.job (W := W) (T := T) (R := R) :=
  {| Sequential.succeeded :=
       RateLimitBatchProcessor.results (RateLimitBatchProcessor.self f);
     Sequential.failed :=
       RateLimitBatchProcessor.errors (RateLimitBatchProcessor.self f);
     Sequential.handled := RateLimitBatchProcessor.completed f;
     Sequential.world := fst (RateLimitBatchProcessor.env f);
     Sequential.told :=
       RateLimitBatchProcessor.progress_calls
         (snd (RateLimitBatchProcessor.env f)) |}.

(** ** Auxiliary notions for the proofs *)

(** The value of a decimal numeral read from the left, [acc] being the value
    of the digits already read. *)
Fixpoint uint_value (acc : Z) (d : Decimal.uint) : Z :=
  match d with
  | Decimal.Nil => acc
  | Decimal.D0 d => uint_value (10 * acc + 0) d
  | Decimal.D1 d => uint_value (10 * acc + 1) d
  | Decimal.D2 d => uint_value (10 * acc + 2) d
  | Decimal.D3 d => uint_value (10 * acc + 3) d
  | Decimal.D4 d => uint_value (10 * acc + 4) d
  | Decimal.D5 d => uint_value (10 * acc + 5) d
  | Decimal.D6 d => uint_value (10 * acc + 6) d
  | Decimal.D7 d => uint_value (10 * acc + 7) d
  | Decimal.D8 d => uint_value (10 * acc + 8) d
  | Decimal.D9 d => uint_value (10 * acc + 9) d
  end.

(** The events of the handler's fall-back path for the failure number
    [attempt]: no observer, a delay of [2^attempt] base delays, the
    re-issue. *)
Definition fallback_events {W : Type} (this : RateLimitHandler.t (W := W))
    (attempt : Z) : list RateLimitHandler.event :=
  [RateLimitHandler.Slept
     (mul (Math_pow2 attempt) (RateLimitHandler.rateLimitRetryDelay this));
   RateLimitHandler.Reissued].

(** The world after [n] rounds of the fall-back path from the failure number
    [attempt] on: each round sleeps [2^attempt] base delays and re-issues the
    request. *)
Fixpoint fallback_world {W V : Type} (sleep : number -> W -> W)
    (retryFn : W -> settled V * W) (this : RateLimitHandler.t (W := W))
    (n : nat) (attempt : Z) (w : W) : W :=
  match n with
  | O => w
  | S n' =>
      fallback_world sleep retryFn this n' (attempt + 1)
        (snd (retryFn
                (sleep (mul (Math_pow2 attempt)
                            (RateLimitHandler.rateLimitRetryDelay this)) w)))
  end.

(** The counts handed to the progress observer, in order. *)
Definition progress_counts {T R : Type}
    (tr : list (RateLimitBatchProcessor.event (T := T) (R := R))) : list Z :=
  (RateLimitBatchProcessor.progress_calls tr).*1.*1.

(** ** Concrete values for the examples *)

(** Header objects used below: the four headers with well-formed values, the
    same without [x-ratelimit-remaining], with empty values, and with values
    that are no numerals. *)
Definition valid_headers : gmap string string :=
  <["x-ratelimit-limit" := "60"]>
    (<["x-ratelimit-remaining" := "0"]>
       (<["x-ratelimit-reset" := "2024-01-01T12:00:00Z"]>
          (<["x-ratelimit-retry-after" := "30"]> ∅)))%string.

Definition headers_without_remaining : gmap string string :=
  delete "x-ratelimit-remaining"%string valid_headers.

Definition empty_valued_headers : gmap string string :=
  <["x-ratelimit-limit" := ""]>
    (<["x-ratelimit-remaining" := ""]>
       (<["x-ratelimit-reset" := ""]>
          (<["x-ratelimit-retry-after" := ""]> ∅)))%string.

Definition garbled_headers : gmap string string :=
  <["x-ratelimit-limit" := "sixty"]>
    (<["x-ratelimit-remaining" := "none"]>
       (<["x-ratelimit-reset" := "soon"]>
          (<["x-ratelimit-retry-after" := "n/a"]> ∅)))%string.

(** Failures to handle: a 429 with the headers above, a 500 without any. *)
Definition error_429 : AxiosError :=
  mkAxiosError (Some (mkAxiosResponse 429 valid_headers)).

Definition error_500 : AxiosError :=
  mkAxiosError (Some (mkAxiosResponse 500 ∅)).

(** A world that is just a clock in milliseconds: sleeping advances it by the
    delay, every date string parses to the same instant, requests take no
    time. *)
Definition clock_sleep (ms : number) (w : Z) : Z :=
  match ms with Int z => w + z | _ => w end.

Definition clock_parse (_ : string) : number := Int 1704110400000.

Definition handler_default : RateLimitHandler.t (W := Z) :=
  RateLimitHandler.constructor (RateLimitHandler.mkOptions None None None None).

Definition handler_observed : RateLimitHandler.t (W := Z) :=
  RateLimitHandler.constructor
    (RateLimitHandler.mkOptions None None
       (Some (fun _ w => w)) (Some (fun _ _ w => w))).

Definition always_429 (w : Z) : settled unit * Z :=
  (Rejected (ThrownAxios error_429), w).

Definition always_500 (w : Z) : settled unit * Z :=
  (Rejected (ThrownAxios error_500), w).

(** Work for the batch processor on the clock world: a processor that doubles
    its item, one that fails on even items, an observer that does nothing. *)
Definition doubling (x : Z) (w : Z) : settled Z * Z := (Resolved (2 * x), w).

Definition odd_only (x : Z) (w : Z) : settled Z * Z :=
  if Z.even x then (Rejected (ThrownOther "even item"), w)
  else (Resolved (2 * x), w).

(** A processor whose first item meets the rate limit, the reset being at
    500 ms on the clock. *)
Definition limited_first (x : Z) (w : Z) : settled Z * Z :=
  if x =? 1
  then (Rejected (ThrownRateLimit
                    {| message := "Rate limit exceeded. Retry after 1 seconds.";
                       rateLimitHeaders := integer_state 60 0 500 1 |}), w)
  else (Resolved (2 * x), w).

Definition silent : RateLimitBatchProcessor.progress (W := Z) :=
  fun _ _ _ w => w.

(** More values for the examples: a 429 without any header and a request
    that is answered so each time, a handler whose budget is not a number, a
    request that succeeds, and two functions to wrap, one failing with an
    ordinary error and one failing with a rate-limit error. *)
Definition error_429_bare : AxiosError :=
  mkAxiosError (Some (mkAxiosResponse 429 ∅)).

Definition always_429_bare (w : Z) : settled unit * Z :=
  (Rejected (ThrownAxios error_429_bare), w).

Definition handler_unbounded : RateLimitHandler.t (W := Z) :=
  RateLimitHandler.constructor
    (RateLimitHandler.mkOptions (Some NaN) None None None).

Definition succeeds (w : Z) : settled unit * Z := (Resolved tt, w).

Definition fails_otherwise (w : Z) : settled Z * Z :=
  (Rejected (ThrownOther "ECONNRESET"), w).

Definition fails_rate_limited (w : Z) : settled Z * Z :=
  (Rejected (ThrownRateLimit
               {| message := "Rate limit exceeded. Retry after 1 seconds.";
                  rateLimitHeaders := integer_state 60 0 500 1 |}), w).

(* ===================================================================== *)
(** * Part 2: lemmas and theorems                                        *)
(* ===================================================================== *)

(** ** The JavaScript layer on examples *)

Example parseInt_60 : parseInt "60" = Int 60.
Proof. reflexivity. Qed.
Example parseInt_prefix : parseInt "  -12abc" = Int (-12).
Proof. reflexivity. Qed.
Example parseInt_abc : parseInt "abc" = NaN.
Proof. reflexivity. Qed.
Example parseInt_empty : parseInt "" = NaN.
Proof. reflexivity. Qed.
Example toString_60 : toString (Int 60) = "60"%string.
Proof. reflexivity. Qed.
Example slice_mid : slice [1; 2; 3; 4; 5] 3 13 = [4; 5].
Proof. reflexivity. Qed.
Example ceil_quot_7_2 : ceil_quot 7 2 = 4 /\ ceil_quot (-7) 2 = -3.
Proof. split; reflexivity. Qed.
Example round_percent_35_60 : Math_round_percent (Int 35) (Int 60) = Int 58.
Proof. reflexivity. Qed.

(** ** Arithmetic of the roundings *)

Section Roundings.

(** [ceil_quot n d] is the least integer [c] with [n <= c * d]. *)
Lemma ceil_quot_spec (n d : Z) :
  0 < d -> (ceil_quot n d - 1) * d < n <= ceil_quot n d * d.
Proof.
  intros Hd. unfold ceil_quot.
  pose proof (Z.div_mod (- n) d ltac:(lia)) as Hdm.
  pose proof (Z.mod_pos_bound (- n) d Hd) as Hr.
  nia.
Qed.

Lemma ceil_quot_zero (d : Z) : ceil_quot 0 d = 0.
Proof. unfold ceil_quot. simpl. now rewrite Zdiv_0_l. Qed.

(** A quantity divided by itself rounds to one hundred percent. *)
Lemma round_quot_full (l : Z) : 0 < l -> round_quot (100 * l) l = 100.
Proof.
  intros Hl. unfold round_quot. symmetry.
  apply (Z.div_unique_pos _ _ 100 l); lia.
Qed.

End Roundings.

(** ** Strings *)

Section Strings.

Lemma prefix_append (s post : string) : String.prefix s (s +:+ post) = true.
Proof.
  induction s as [|c s IH]; simpl.
  - now destruct post.
  - destruct (ascii_dec c c) as [_|Hne]; [exact IH | congruence].
Qed.

Lemma includes_prefix (s hay : string) :
  String.prefix s hay = true -> includes s hay = true.
Proof. intros H. destruct hay; simpl in *; now rewrite H. Qed.

Lemma includes_append_r (s pre hay : string) :
  includes s hay = true -> includes s (pre +:+ hay) = true.
Proof.
  intros H. induction pre as [|c pre IH]; simpl; [exact H|].
  rewrite IH. apply orb_true_r.
Qed.

(** A string includes whatever it was assembled from. *)
Lemma includes_infix (s pre post : string) :
  includes s (pre +:+ s +:+ post) = true.
Proof. apply includes_append_r, includes_prefix, prefix_append. Qed.

End Strings.

(** ** Numbers: the operations on integers *)

Section IntegerOperations.

Lemma le_Int (a b : Z) : le (Int a) (Int b) = (a <=? b).
Proof. reflexivity. Qed.

Lemma lt_Int (a b : Z) : lt (Int a) (Int b) = (a <? b).
Proof. reflexivity. Qed.

Lemma gt_Int (a b : Z) : gt (Int a) (Int b) = (b <? a).
Proof. reflexivity. Qed.

Lemma ge_Int (a b : Z) : ge (Int a) (Int b) = (b <=? a).
Proof. reflexivity. Qed.

Lemma sub_Int (a b : Z) : sub (Int a) (Int b) = Int (a - b).
Proof. reflexivity. Qed.

Lemma Math_max_Int (a b : Z) : Math_max (Int a) (Int b) = Int (Z.max a b).
Proof. unfold Math_max, Z.max. simpl. now destruct (a ?= b). Qed.

Lemma Math_min_Int (a b : Z) : Math_min (Int a) (Int b) = Int (Z.min a b).
Proof. unfold Math_min, Z.min. simpl. now destruct (a ?= b). Qed.

Lemma Math_ceil_div_Int (n d : Z) :
  d <> 0 -> Math_ceil_div (Int n) (Int d) = Int (ceil_quot n d).
Proof.
  intros Hd. unfold Math_ceil_div, quot_then.
  now destruct (Z.eqb_spec d 0).
Qed.

End IntegerOperations.

(** ** [RateLimitUtils]: the pure helpers *)

Section Utils.

Import RateLimitUtils.

(** Reads the fields of an [integer_state]. *)
Ltac fields :=
  cbn [integer_state limit remaining reset retryAfter getTime].

(** The two early exits and the spreading branch of [getWaitTime], on an
    integer state. *)
Lemma getWaitTime_passed (l r t ra now : Z) :
  t <= now -> getWaitTime (integer_state l r t ra) now = Int 0.
Proof.
  intros H. unfold getWaitTime. fields. rewrite le_Int.
  now destruct (Z.leb_spec t now); [|lia].
Qed.

Lemma getWaitTime_pending (l r t ra now : Z) :
  now < t ->
  getWaitTime (integer_state l r t ra) now =
    if 0 <? r then Int (ceil_quot (t - now) r) else Int (t - now).
Proof.
  intros H. unfold getWaitTime. fields. rewrite le_Int, gt_Int.
  destruct (Z.leb_spec t now); [lia|].
  destruct (Z.ltb_spec 0 r); [|reflexivity].
  rewrite sub_Int. apply Math_ceil_div_Int. lia.
Qed.

(** C4. [getWaitTime] on a state with integer fields and a valid reset date:
    when the reset time lies in the past the result is 0; otherwise, with
    [remaining > 0] it is the ceiling of (reset - now) / remaining, i.e. the
    least integer [c] with [reset - now <= c * remaining], and with
    [remaining = 0] it is the whole of [reset - now]. *)
Theorem getWaitTime_cases (l r t ra now : Z) :
  (t < now -> getWaitTime (integer_state l r t ra) now = Int 0) /\
  (now <= t -> 0 < r ->
     exists c, getWaitTime (integer_state l r t ra) now = Int c /\
               (c - 1) * r < t - now <= c * r) /\
  (now <= t -> r = 0 -> getWaitTime (integer_state l r t ra) now = Int (t - now)).
Proof.
  split; [|split].
  - intros H. apply getWaitTime_passed. lia.
  - intros Ht Hr. destruct (Z.eq_dec t now) as [->|Hne].
    + exists 0. rewrite getWaitTime_passed by lia. split; [reflexivity | lia].
    + exists (ceil_quot (t - now) r).
      rewrite getWaitTime_pending by lia.
      destruct (Z.ltb_spec 0 r); [|lia].
      split; [reflexivity | now apply ceil_quot_spec].
  - intros Ht ->. destruct (Z.eq_dec t now) as [->|Hne].
    + rewrite getWaitTime_passed by lia. f_equal. lia.
    + now rewrite getWaitTime_pending by lia.
Qed.

(** On an integer state [calculateBatchDelay] tests [remaining <= 0] before
    it looks at the planned operations. *)
Lemma calculateBatchDelay_Int (l r t ra planned now : Z) :
  calculateBatchDelay (integer_state l r t ra) (Int planned) now =
    if r <=? 0 then Int (Z.max 0 (t - now))
    else if planned <=? r then Int 0
    else if t - now <=? 0 then Int 0
    else Int (ceil_quot (t - now) r).
Proof.
  unfold calculateBatchDelay. fields. rewrite !le_Int.
  destruct (Z.leb_spec r 0).
  - now rewrite sub_Int, Math_max_Int.
  - destruct (planned <=? r); [reflexivity|].
    rewrite sub_Int, le_Int. destruct (t - now <=? 0); [reflexivity|].
    apply Math_ceil_div_Int. lia.
Qed.

(** C3, as stated, fails: with no request remaining, none planned and the
    reset one second ahead, [plannedOps <= remaining] holds and the delay is
    the 1000 ms until the reset, not 0. *)
Lemma calculateBatchDelay_not_zero_counterexample :
  le (Int 0) (remaining (integer_state 60 0 1000 60)) = true /\
  calculateBatchDelay (integer_state 60 0 1000 60) (Int 0) 0 = Int 1000 /\
  Int 1000 <> Int 0.
Proof. repeat split; [reflexivity..|discriminate]. Qed.

(** C3, amended. [calculateBatchDelay] on an integer state: if
    [remaining <= 0] it is the time until the reset, and 0 once the reset has
    passed, whatever the planned count; otherwise it is 0 if
    [plannedOps <= remaining]; otherwise it is 0 once the reset has passed,
    and else the time until the reset spread over the remaining requests,
    the least integer [c] with [reset - now <= c * remaining]. *)
Theorem calculateBatchDelay_cases (l r t ra planned now : Z) :
  (r <= 0 ->
     calculateBatchDelay (integer_state l r t ra) (Int planned) now
     = Int (Z.max 0 (t - now))) /\
  (0 < r -> planned <= r ->
     calculateBatchDelay (integer_state l r t ra) (Int planned) now = Int 0) /\
  (0 < r -> r < planned -> t <= now ->
     calculateBatchDelay (integer_state l r t ra) (Int planned) now = Int 0) /\
  (0 < r -> r < planned -> now < t ->
     exists c,
       calculateBatchDelay (integer_state l r t ra) (Int planned) now = Int c /\
       (c - 1) * r < t - now <= c * r).
Proof.
  rewrite calculateBatchDelay_Int.
  repeat split; intros; repeat case_match; try lia; try reflexivity.
  exists (ceil_quot (t - now) r). split; [reflexivity|].
  apply ceil_quot_spec; lia.
Qed.

Lemma getOptimalBatchSize_Int (l r t ra m : Z) :
  getOptimalBatchSize (integer_state l r t ra) (Int m)
  = Int (Z.min m (Z.max 0 (r - Z.max 5 (l / 10)))).
Proof.
  unfold getOptimalBatchSize, Math_floor_tenth, floor_quot. fields.
  now rewrite Math_max_Int, sub_Int, Math_max_Int, Math_min_Int.
Qed.

(** C5. On a state with integer fields whose limit is below 10^15 in absolute
    value (where [Math.floor(limit * 0.1)] is the floor of the tenth), and for
    [maxBatchSize >= 0], [getOptimalBatchSize] is [min(max, max(0, remaining -
    max(5, floor(limit / 10))))], lies between 0 and [maxBatchSize], and does
    not decrease when [remaining] grows, [limit] and [maxBatchSize] fixed. *)
Theorem getOptimalBatchSize_bounds_monotone (l r r' t ra m : Z) :
  Z.abs l < 10 ^ 15 ->
  0 <= m -> r <= r' ->
  getOptimalBatchSize (integer_state l r t ra) (Int m)
    = Int (Z.min m (Z.max 0 (r - Z.max 5 (l / 10)))) /\
  le (Int 0) (getOptimalBatchSize (integer_state l r t ra) (Int m)) = true /\
  le (getOptimalBatchSize (integer_state l r t ra) (Int m)) (Int m) = true /\
  le (getOptimalBatchSize (integer_state l r t ra) (Int m))
     (getOptimalBatchSize (integer_state l r' t ra) (Int m)) = true.
Proof.
  intros _ Hm Hr. rewrite !getOptimalBatchSize_Int, !le_Int.
  repeat split; apply Z.leb_le; lia.
Qed.

Section Status.
Variable toLocaleTimeString : Date -> string.

(** The message of the first tier, as the template literal builds it. *)
Lemma getRateLimitStatus_reached (l t ra : Z) :
  getRateLimitStatus toLocaleTimeString (integer_state l 0 t ra)
  = ("Rate limit reached (" +:+ ("0/" +:+ toString (Int l)) +:+ "). Resets at "
       +:+ toLocaleTimeString (mkDate (Int t)))%string.
Proof. reflexivity. Qed.

(** C7. For a state with [remaining = 0] and [limit > 0] the usage is
    exactly 100 percent, and the status message includes the text
    "Rate limit reached" and the fragment "0/<limit>". *)
Theorem exhausted_state_usage_and_status (l t ra : Z) :
  0 < l ->
  getRateLimitUsagePercent (integer_state l 0 t ra) = Int 100 /\
  includes "Rate limit reached"
    (getRateLimitStatus toLocaleTimeString (integer_state l 0 t ra)) = true /\
  includes ("0/" +:+ toString (Int l))
    (getRateLimitStatus toLocaleTimeString (integer_state l 0 t ra)) = true.
Proof.
  intros Hl. split; [|split].
  - unfold getRateLimitUsagePercent. fields. rewrite sub_Int, Z.sub_0_r.
    unfold Math_round_percent, quot_then.
    destruct (Z.eqb_spec l 0); [lia|].
    f_equal. now apply round_quot_full.
  - apply includes_prefix. reflexivity.
  - rewrite getRateLimitStatus_reached. apply includes_infix.
Qed.
End Status.

End Utils.

(** C4 at the values of the test-suite: reset 15 s ahead with nothing
    remaining, and 30 s ahead with 10 remaining. *)
Example getWaitTime_tests :
  RateLimitUtils.getWaitTime (integer_state 60 0 15000 30) 0 = Int 15000 /\
  RateLimitUtils.getWaitTime (integer_state 60 10 30000 30) 0 = Int 3000 /\
  RateLimitUtils.getWaitTime (integer_state 60 30 (-1000) 30) 0 = Int 0.
Proof. repeat split. Qed.

(** [getOptimalBatchSize_bounds_monotone] at limit 60, max 50, remaining 10
    and 55. *)
Lemma getOptimalBatchSize_witness :
  RateLimitUtils.getOptimalBatchSize (integer_state 60 10 0 0) (Int 50)
    = Int (Z.min 50 (Z.max 0 (10 - Z.max 5 (60 / 10)))) /\
  le (Int 0) (RateLimitUtils.getOptimalBatchSize (integer_state 60 10 0 0) (Int 50)) = true /\
  le (RateLimitUtils.getOptimalBatchSize (integer_state 60 10 0 0) (Int 50)) (Int 50) = true /\
  le (RateLimitUtils.getOptimalBatchSize (integer_state 60 10 0 0) (Int 50))
     (RateLimitUtils.getOptimalBatchSize (integer_state 60 55 0 0) (Int 50)) = true.
Proof. apply (getOptimalBatchSize_bounds_monotone 60 10 55 0 0 50); lia. Defined.

(** [exhausted_state_usage_and_status] at limit 60, as in the test-suite. *)
Lemma exhausted_state_witness :
  RateLimitUtils.getRateLimitUsagePercent (integer_state 60 0 0 0) = Int 100 /\
  includes "Rate limit reached"
    (RateLimitUtils.getRateLimitStatus (fun _ => "12:00:00"%string)
       (integer_state 60 0 0 0)) = true /\
  includes ("0/" +:+ toString (Int 60))
    (RateLimitUtils.getRateLimitStatus (fun _ => "12:00:00"%string)
       (integer_state 60 0 0 0)) = true.
Proof. apply (exhausted_state_usage_and_status (fun _ => "12:00:00"%string) 60 0 0); lia. Defined.

(** ** [RateLimitHandler.parseRateLimitHeaders] *)

Section Parser.

Import RateLimitHandler.

Variable Date_parse : string -> number.

Lemma truthy_Some (v : option string) :
  truthy v = true -> exists s, v = Some s /\ s <> ""%string.
Proof.
  destruct v as [s|]; [|discriminate]. simpl. intros H.
  exists s. split; [reflexivity|]. intros ->. discriminate.
Qed.

(** The parser answers only when the four values are truthy, and then with
    the unvalidated parse of each. *)
Lemma parseRateLimitHeaders_Some (r : AxiosResponse) (st : RateLimitHeaders) :
  parseRateLimitHeaders Date_parse r = Some st ->
  exists l rem rs ra,
    headers r !! "x-ratelimit-limit"%string = Some l /\
    headers r !! "x-ratelimit-remaining"%string = Some rem /\
    headers r !! "x-ratelimit-reset"%string = Some rs /\
    headers r !! "x-ratelimit-retry-after"%string = Some ra /\
    st = {| limit := parseInt l; remaining := parseInt rem;
            reset := mkDate (Date_parse rs); retryAfter := parseInt ra |}.
Proof.
  unfold parseRateLimitHeaders.
  destruct (truthy (headers r !! "x-ratelimit-limit"%string)) eqn:E1; [|discriminate].
  destruct (truthy (headers r !! "x-ratelimit-remaining"%string)) eqn:E2; [|discriminate].
  destruct (truthy (headers r !! "x-ratelimit-reset"%string)) eqn:E3; [|discriminate].
  destruct (truthy (headers r !! "x-ratelimit-retry-after"%string)) eqn:E4; [|discriminate].
  apply truthy_Some in E1 as (l & -> & _), E2 as (rem & -> & _),
        E3 as (rs & -> & _), E4 as (ra & -> & _).
  simpl. intros [= <-]. now exists l, rem, rs, ra.
Qed.

(** C6. If one of the four required headers is absent from the header
    object, [parseRateLimitHeaders] returns [null]: it returns no state at
    all, and in particular none with [remaining = 0]. *)
Theorem parseRateLimitHeaders_missing (r : AxiosResponse) (k : string) :
  k ∈ required_headers ->
  headers r !! k = None ->
  parseRateLimitHeaders Date_parse r = None /\
  (forall l t ra,
     parseRateLimitHeaders Date_parse r
     <> Some {| limit := l; remaining := Int 0; reset := t; retryAfter := ra |}).
Proof.
  intros Hk Hnone.
  assert (parseRateLimitHeaders Date_parse r = None) as Hparse.
  { destruct (parseRateLimitHeaders Date_parse r) as [st|] eqn:E; [|reflexivity].
    apply parseRateLimitHeaders_Some in E as (l & rem & rs & ra & H1 & H2 & H3 & H4 & _).
    unfold required_headers in Hk.
    rewrite !elem_of_cons, elem_of_nil in Hk.
    destruct Hk as [->|[->|[->|[->|[]]]]]; congruence. }
  split; [exact Hparse|]. intros l t ra. now rewrite Hparse.
Qed.

(** C9, as stated, fails: a header object that has the four headers, each
    with the empty string for value (which [parseInt] does not read as a
    number), is answered with [null]. *)
Lemma parseRateLimitHeaders_empty_values_counterexample :
  (empty_valued_headers !! "x-ratelimit-limit"%string = Some ""%string /\
   empty_valued_headers !! "x-ratelimit-remaining"%string = Some ""%string /\
   empty_valued_headers !! "x-ratelimit-reset"%string = Some ""%string /\
   empty_valued_headers !! "x-ratelimit-retry-after"%string = Some ""%string) /\
  parseInt "" = NaN /\
  parseRateLimitHeaders (fun _ => NaN) (mkAxiosResponse 429 empty_valued_headers) = None.
Proof. vm_compute. repeat split. Qed.

(** C9, amended. If the four required headers are present with non-empty
    values, and the values of limit, remaining and retry-after do not start
    with a numeral ([parseInt] gives [NaN]), then [parseRateLimitHeaders]
    does not return [null]: it returns a state whose [limit], [remaining]
    and [retryAfter] are [NaN] and whose [reset] is [new Date] of the raw
    value, an invalid date whenever that value does not parse. *)
Theorem parseRateLimitHeaders_unvalidated (r : AxiosResponse) (l rem rs ra : string) :
  headers r !! "x-ratelimit-limit"%string = Some l ->
  headers r !! "x-ratelimit-remaining"%string = Some rem ->
  headers r !! "x-ratelimit-reset"%string = Some rs ->
  headers r !! "x-ratelimit-retry-after"%string = Some ra ->
  l <> ""%string -> rem <> ""%string -> rs <> ""%string -> ra <> ""%string ->
  parseInt l = NaN -> parseInt rem = NaN -> parseInt ra = NaN ->
  parseRateLimitHeaders Date_parse r
    = Some {| limit := NaN; remaining := NaN;
              reset := mkDate (Date_parse rs); retryAfter := NaN |} /\
  (Date_parse rs = NaN ->
   parseRateLimitHeaders Date_parse r
     = Some {| limit := NaN; remaining := NaN;
               reset := mkDate NaN; retryAfter := NaN |}).
Proof.
  intros H1 H2 H3 H4 Nl Nrem Nrs Nra Pl Prem Pra.
  assert (forall s : string, s <> ""%string -> truthy (Some s) = true) as Ht.
  { intros s Hs. simpl. now destruct (String.eqb_spec s ""). }
  assert (parseRateLimitHeaders Date_parse r
          = Some {| limit := NaN; remaining := NaN;
                    reset := mkDate (Date_parse rs); retryAfter := NaN |}) as Hparse.
  { unfold parseRateLimitHeaders. rewrite H1, H2, H3, H4, !Ht by assumption.
    simpl. now rewrite Pl, Prem, Pra. }
  split; [exact Hparse|]. intros Hd. now rewrite Hparse, Hd.
Qed.

End Parser.

(** [parseRateLimitHeaders_missing] on a response without
    [x-ratelimit-remaining]. *)
Lemma parseRateLimitHeaders_missing_witness :
  RateLimitHandler.parseRateLimitHeaders (fun _ => Int 1704110400000)
    (mkAxiosResponse 429 headers_without_remaining) = None /\
  (forall l t ra,
     RateLimitHandler.parseRateLimitHeaders (fun _ => Int 1704110400000)
       (mkAxiosResponse 429 headers_without_remaining)
     <> Some {| limit := l; remaining := Int 0; reset := t; retryAfter := ra |}).
Proof.
  apply (parseRateLimitHeaders_missing (fun _ => Int 1704110400000)
           (mkAxiosResponse 429 headers_without_remaining)
           "x-ratelimit-remaining"%string).
  - unfold required_headers. rewrite !elem_of_cons. auto.
  - vm_compute. reflexivity.
Defined.

(** [parseRateLimitHeaders_unvalidated] on values that are no numerals. *)
Lemma parseRateLimitHeaders_unvalidated_witness :
  RateLimitHandler.parseRateLimitHeaders (fun _ => NaN)
    (mkAxiosResponse 429 garbled_headers)
  = Some {| limit := NaN; remaining := NaN; reset := mkDate NaN; retryAfter := NaN |}.
Proof.
  apply (parseRateLimitHeaders_unvalidated (fun _ => NaN)
           (mkAxiosResponse 429 garbled_headers) "sixty" "none" "soon" "n/a");
    try (vm_compute; reflexivity); discriminate.
Defined.

(** The parser on well-formed headers. *)
Example parseRateLimitHeaders_valid :
  RateLimitHandler.parseRateLimitHeaders (fun _ => Int 1704110400000)
    (mkAxiosResponse 429 valid_headers)
  = Some (integer_state 60 0 1704110400000 30).
Proof. vm_compute. reflexivity. Qed.

(** ** [RateLimitHandler.handleRateLimit] *)

Section Handler.

Import RateLimitHandler.

Context {W V : Type}.
Variable Date_parse : string -> number.
Variable Date_now : W -> Z.
Variable sleep : number -> W -> W.
Variable retryFn : W -> settled V * W.
Variable this : RateLimitHandler.t (W := W).

Local Abbreviation handle := (handleRateLimit Date_parse Date_now sleep).
Local Abbreviation quota_exceeded := (quota_exceeded Date_parse).
Local Abbreviation delay_of := (delay_of this).

(** A failure that is not a 429 is not retried: the call is rejected at
    once, the world and the trace as they were. It is however not rejected
    with the failure itself but with the [RateLimitError] made from it. *)
Lemma handleRateLimit_not_429 (fuel : nat) (e : AxiosError) (attempt : Z)
    (st : W * list event) :
  isRateLimitError e = false ->
  handle (S fuel) this e retryFn attempt st
  = Some (Rejected (ThrownRateLimit (createRateLimitError Date_parse Date_now e (fst st))), st).
Proof. intros H. simpl. now rewrite H. Qed.

(** Once the budget is used up the call is rejected with a
    [RateLimitError]. *)
Lemma handleRateLimit_exhausted (fuel : nat) (e : AxiosError) (attempt : Z)
    (st : W * list event) :
  ge (Int attempt) (rateLimitRetryAttempts this) = true ->
  handle (S fuel) this e retryFn attempt st
  = Some (Rejected (ThrownRateLimit (createRateLimitError Date_parse Date_now e (fst st))), st).
Proof. intros H. simpl. rewrite H. now rewrite orb_true_r. Qed.

Section Observed.

Variable onHit : RateLimitHeaders -> W -> W.
Variable onRetry : Z -> RateLimitHeaders -> W -> W.
Hypothesis Hhit : onRateLimitHit this = Some onHit.
Hypothesis Hretry : onRateLimitRetry this = Some onRetry.

Local Abbreviation world_at_reissue := (world_at_reissue sleep this onHit onRetry).
Local Abbreviation events_of_retry := (events_of_retry this).

(** One retry whose re-issue fails with a response. *)
Lemma handleRateLimit_retry (fuel : nat) (e e' : AxiosError)
    (st : RateLimitHeaders) (attempt : Z) (w w' : W) (tr : list event) :
  quota_exceeded e st ->
  ge (Int attempt) (rateLimitRetryAttempts this) = false ->
  retryFn (world_at_reissue attempt st w) = (Rejected (ThrownAxios e'), w') ->
  handle (S fuel) this e retryFn attempt (w, tr)
  = handle fuel this e' retryFn (attempt + 1) (w', tr ++ events_of_retry attempt st).
Proof.
  intros [H429 Hst] Hge Hfn. simpl.
  rewrite H429, Hge, Hst, Hhit, Hretry. simpl.
  unfold RateLimitHandler.world_at_reissue, RateLimitHandler.delay_of,
    RateLimitHandler.events_of_retry in *.
  destruct (attempt =? 0); simpl in *; rewrite Hfn; simpl;
    now rewrite <- ?app_assoc.
Qed.

(** C1. With [rateLimitRetryAttempts = 3], both observers set, a first
    failure that is a 429 with valid headers and a request that fails in
    the same way each time it is re-issued.  The request is re-issued three
    times, 4 attempts in all: first in the world left by [onRateLimitHit],
    [onRateLimitRetry] with attempt 1 and the sleep, then twice more, each
    time in the world left by the previous re-issue, [onRateLimitRetry] with
    attempt 2, then 3, and the sleep; each observer is given the state parsed
    from the failure that caused the retry, and each sleep is the delay of
    that state.  The call ends in the world left by the third re-issue,
    rejected with the [RateLimitError] made there from its failure.  The
    trace shows [onRateLimitHit] once and [onRateLimitRetry] three times. *)
Theorem handleRateLimit_always_429 (error : AxiosError) (st0 : RateLimitHeaders) (w : W) :
  rateLimitRetryAttempts this = Int 3 ->
  quota_exceeded error st0 ->
  (forall w, exists e st w',
      retryFn w = (Rejected (ThrownAxios e), w') /\ quota_exceeded e st) ->
  exists (e1 e2 e3 : AxiosError) (st1 st2 st3 : RateLimitHeaders)
         (w1 w2 w3 : W) (tr : list event),
    retryFn (sleep (delay_of st0) (onRetry 1 st0 (onHit st0 w)))
      = (Rejected (ThrownAxios e1), w1) /\
    quota_exceeded e1 st1 /\
    retryFn (sleep (delay_of st1) (onRetry 2 st1 w1))
      = (Rejected (ThrownAxios e2), w2) /\
    quota_exceeded e2 st2 /\
    retryFn (sleep (delay_of st2) (onRetry 3 st2 w2))
      = (Rejected (ThrownAxios e3), w3) /\
    quota_exceeded e3 st3 /\
    (forall fuel, (4 <= fuel)%nat ->
       handle fuel this error retryFn 0 (w, [])
       = Some (Rejected (ThrownRateLimit
                 (createRateLimitError Date_parse Date_now e3 w3)), (w3, tr))) /\
    rateLimitHeaders (createRateLimitError Date_parse Date_now e3 w3) = st3 /\
    tr = [HitFired st0;
          RetryFired 1 st0; Slept (delay_of st0); Reissued;
          RetryFired 2 st1; Slept (delay_of st1); Reissued;
          RetryFired 3 st2; Slept (delay_of st2); Reissued] /\
    attempts tr = 4%nat /\
    hits tr = [st0] /\
    retries tr = [(1, st0); (2, st1); (3, st2)].
Proof.
  intros Hmax H0 Hop.
  destruct (Hop (world_at_reissue 0 st0 w)) as (e1 & st1 & w1 & Hfn1 & H1).
  destruct (Hop (world_at_reissue 1 st1 w1)) as (e2 & st2 & w2 & Hfn2 & H2).
  destruct (Hop (world_at_reissue 2 st2 w2)) as (e3 & st3 & w3 & Hfn3 & H3).
  exists e1, e2, e3, st1, st2, st3, w1, w2, w3.
  eexists.
  split; [exact Hfn1|]. split; [exact H1|].
  split; [exact Hfn2|]. split; [exact H2|].
  split; [exact Hfn3|]. split; [exact H3|].
  split; [|split; [|split; [reflexivity|]]].
  - intros fuel Hfuel.
    do 4 (destruct fuel as [|fuel]; [lia|]).
    rewrite (handleRateLimit_retry _ error e1 st0 0 w w1) by
      (try rewrite Hmax; auto).
    rewrite (handleRateLimit_retry _ e1 e2 st1 (0 + 1) w1 w2) by
      (try rewrite Hmax; auto).
    rewrite (handleRateLimit_retry _ e2 e3 st2 (0 + 1 + 1) w2 w3) by
      (try rewrite Hmax; auto).
    rewrite handleRateLimit_exhausted by (rewrite Hmax; reflexivity).
    reflexivity.
  - unfold createRateLimitError. destruct H3 as [_ ->]. reflexivity.
  - repeat split.
Qed.

End Observed.

End Handler.

(** [handleRateLimit_always_429] on the clock world: the default budget of 3,
    both observers set, every attempt answered 429 with the same headers. *)
Lemma handleRateLimit_always_429_witness :
  exists (err : RateLimitError) (w' : Z) (tr : list RateLimitHandler.event),
    RateLimitHandler.handleRateLimit clock_parse id clock_sleep 4
      handler_observed error_429 always_429 0 (0, [])
    = Some (Rejected (ThrownRateLimit err), (w', tr)) /\
    RateLimitHandler.attempts tr = 4%nat /\
    length (RateLimitHandler.hits tr) = 1%nat /\
    (RateLimitHandler.retries tr).*1 = [1; 2; 3].
Proof.
  destruct (handleRateLimit_always_429 clock_parse id clock_sleep always_429
              handler_observed (fun _ w => w) (fun _ _ w => w)
              eq_refl eq_refl error_429 (integer_state 60 0 1704110400000 30) 0)
    as (e1 & e2 & e3 & st1 & st2 & st3 & w1 & w2 & w' & tr
        & _ & _ & _ & _ & _ & _ & Hrun & _ & _ & Ha & Hh & Hr).
  - reflexivity.
  - split; vm_compute; reflexivity.
  - intros w. exists error_429, (integer_state 60 0 1704110400000 30), w.
    split; [reflexivity|]. split; vm_compute; reflexivity.
  - eexists _, w', tr. split; [apply Hrun; lia|].
    split; [exact Ha|]. rewrite Hh, Hr. split; reflexivity.
Defined.

(** The same run, computed: the trace in full. *)
Example handleRateLimit_always_429_run :
  RateLimitHandler.handleRateLimit clock_parse id clock_sleep 4
    handler_observed error_429 always_429 0 (0, [])
  = let st := integer_state 60 0 1704110400000 30 in
    Some (Rejected (ThrownRateLimit
            {| message := "Rate limit exceeded. Retry after 30 seconds.";
               rateLimitHeaders := st |}),
          (93000,
           [RateLimitHandler.HitFired st;
            RateLimitHandler.RetryFired 1 st;
            RateLimitHandler.Slept (Int 31000); RateLimitHandler.Reissued;
            RateLimitHandler.RetryFired 2 st;
            RateLimitHandler.Slept (Int 31000); RateLimitHandler.Reissued;
            RateLimitHandler.RetryFired 3 st;
            RateLimitHandler.Slept (Int 31000); RateLimitHandler.Reissued])).
Proof. vm_compute. reflexivity. Qed.

(** C2 at a failing input. A failure with status 500 is not retried, but it is
    not passed on as it is either: handed to [handleRateLimit] directly, or
    met when the request is re-issued after a 429, it comes out as a
    [RateLimitError] "Rate limit exceeded" with the fallback state, and the
    original failure is lost. *)
Theorem handleRateLimit_500_becomes_RateLimitError :
  RateLimitHandler.handleRateLimit clock_parse id clock_sleep 4
    handler_default error_500 always_500 0 (0, [])
  = Some (Rejected (ThrownRateLimit
            {| message := "Rate limit exceeded. Please try again later.";
               rateLimitHeaders := integer_state 60 0 60000 60 |}),
          (0, [])) /\
  RateLimitHandler.handleRateLimit clock_parse id clock_sleep 4
    handler_default error_429 always_500 0 (0, [])
  = Some (Rejected (ThrownRateLimit
            {| message := "Rate limit exceeded. Please try again later.";
               rateLimitHeaders := integer_state 60 0 (31000 + 60000) 60 |}),
          (31000, [RateLimitHandler.Slept (Int 31000); RateLimitHandler.Reissued])) /\
  ThrownRateLimit
    {| message := "Rate limit exceeded. Please try again later.";
       rateLimitHeaders := integer_state 60 0 60000 60 |}
  <> ThrownAxios error_500.
Proof. split; [|split]; [vm_compute; reflexivity..|discriminate]. Qed.

(** A failure without a [response] property met on a re-issue is passed on
    unchanged, and so is the success of a re-issue. *)
Example handleRateLimit_transport_error_on_retry :
  RateLimitHandler.handleRateLimit clock_parse id clock_sleep 4
    handler_default error_429
    (fun w => (Rejected (V := unit) (ThrownOther "ECONNRESET"), w)) 0 (0, [])
  = Some (Rejected (ThrownOther "ECONNRESET"),
          (31000, [RateLimitHandler.Slept (Int 31000); RateLimitHandler.Reissued])).
Proof. vm_compute. reflexivity. Qed.

(** ** [RateLimitBatchProcessor.processAll] *)

Section Batch.

Import RateLimitBatchProcessor.

Context {W T R : Type}.
Variable Date_now : W -> Z.
Variable sleep : number -> W -> W.
Variable onProgress : option (progress (W := W)).
Variable total : Z.

Local Abbreviation frame := (frame (W := W) (T := T) (R := R)).
Local Abbreviation advanced := (advanced (W := W) (T := T) (R := R) onProgress total).
Local Abbreviation process_item := (process_item Date_now sleep onProgress total).
Local Abbreviation process_batch := (process_batch Date_now sleep onProgress total).

Lemma advanced_nil (f : frame) : advanced [] f f.
Proof.
  exists []. simpl. rewrite !app_nil_r, Z.add_0_r.
  repeat split; destruct onProgress; simpl; rewrite ?app_nil_r; auto.
Qed.

Lemma advanced_app (xs ys : list T) (f f' f'' : frame) :
  advanced xs f f' -> advanced ys f' f'' -> advanced (xs ++ ys) f f''.
Proof.
  intros (l1 & A1 & A2 & A3 & A4 & A5 & A6 & A7 & A8 & A9)
         (l2 & B1 & B2 & B3 & B4 & B5 & B6 & B7 & B8 & B9).
  exists (l1 ++ l2).
  unfold successes, failures, rate_limit_failures in *.
  rewrite fmap_app, !omap_app, !length_app, Nat2Z.inj_add.
  repeat split; try congruence.
  - rewrite B4, A4. now rewrite app_assoc.
  - rewrite B5, A5. now rewrite app_assoc.
  - lia.
  - rewrite B7, A7. now rewrite app_assoc.
  - rewrite B8, A8, A6. destruct onProgress; [|now rewrite !app_nil_r].
    rewrite seqZ_app, fmap_app, <- app_assoc by lia.
    now replace (completed f + Z.of_nat (length xs) + 1)
      with (completed f + 1 + Z.of_nat (length xs)) by lia.
  - rewrite B9, A9. destruct onProgress; lia.
Qed.

(** The body of the inner loop handles its item whatever the outcome. *)
Lemma process_item_advanced (x : T) (f : frame) :
  advanced [x] f (process_item x f).
Proof.
  unfold RateLimitBatchProcessor.process_item.
  destruct (processor (self f) x (fst (env f))) as [outcome w] eqn:E.
  exists [(x, outcome)].
  destruct outcome as [r|e]; [|destruct e as [e|e|d]];
    destruct onProgress as [cb|];
    unfold RateLimitUtils.waitForRateLimit, fire; simpl;
    repeat match goal with
           | |- context [if gt ?a ?b then _ else _] => destruct (gt a b)
           end;
    simpl; unfold processed, item_progress, progress_calls;
    rewrite ?omap_app; simpl; rewrite ?app_nil_r, ?app_nil_l;
    repeat split; try reflexivity; try lia;
    rewrite ?length_app; simpl; try lia.
Qed.

Lemma process_batch_advanced (xs : list T) (f : frame) :
  advanced xs f (process_batch xs f).
Proof.
  revert f. induction xs as [|x xs IH]; intros f.
  - apply advanced_nil.
  - change (x :: xs) with ([x] ++ xs).
    unfold RateLimitBatchProcessor.process_batch. rewrite foldl_app.
    eapply advanced_app; [apply process_item_advanced | apply IH].
Qed.

(** The pause between two chunks leaves the accumulators and the calls
    alone. *)
Lemma pause_advanced (f : frame) (ms : number) :
  advanced [] f
    {| self := self f; completed := completed f;
       env := (sleep ms (fst (env f)), snd (env f) ++ [Slept ms]) |}.
Proof.
  exists []. simpl.
  unfold processed, item_progress, progress_calls.
  rewrite !omap_app. simpl. rewrite !app_nil_r, Z.add_0_r.
  repeat split; destruct onProgress; simpl; rewrite ?app_nil_r; auto.
Qed.

(** A chunk that starts inside the array is the next [batchSize] items. *)
Lemma slice_chunk (l : list T) (i batchSize : Z) :
  0 <= i <= Z.of_nat (length l) -> 0 <= batchSize ->
  slice l i (i + batchSize) = take (Z.to_nat batchSize) (drop (Z.to_nat i) l).
Proof.
  intros Hi Hb. unfold slice, slice_index.
  destruct (Z.ltb_spec i 0); [lia|].
  destruct (Z.ltb_spec (i + batchSize) 0); [lia|].
  rewrite (Z.min_l i) by lia.
  destruct (Z.le_ge_cases (i + batchSize) (Z.of_nat (length l))).
  - rewrite Z.min_l by lia. f_equal. lia.
  - rewrite Z.min_r by lia.
    rewrite !take_ge; [reflexivity| |]; rewrite length_drop; lia.
Qed.

(** With a chunk size of at least one the outer loop ends, within one round
    per item left, and has then gone through every item from [i] on. *)
Lemma chunks_advanced (batchSize : Z) (fuel : nat) :
  1 <= batchSize ->
  forall (i : Z) (f : frame),
    0 <= i ->
    (Z.to_nat (Z.of_nat (length (items (self f))) - i) < fuel)%nat ->
    exists f',
      chunks Date_now sleep fuel onProgress total batchSize i f = Some f' /\
      advanced (drop (Z.to_nat i) (items (self f))) f f'.
Proof.
  intros Hb. induction fuel as [|fuel IH]; intros i f Hi Hfuel; [lia|].
  simpl. destruct (Z.ltb_spec i (Z.of_nat (length (items (self f))))) as [Hlt|Hge].
  - rewrite slice_chunk by lia.
    set (batch := take (Z.to_nat batchSize) (drop (Z.to_nat i) (items (self f)))).
    pose proof (process_batch_advanced batch f) as Hbatch.
    set (f1 := process_batch batch f) in *.
    assert (items (self f1) = items (self f)) as Hitems
      by (destruct Hbatch as (? & ? & ? & _); assumption).
    rewrite Hitems.
    set (f2 := if i + batchSize <? Z.of_nat (length (items (self f))) then _ else f1).
    assert (advanced [] f1 f2) as Hpause.
    { subst f2. destruct (i + batchSize <? _);
        [apply pause_advanced | apply advanced_nil]. }
    assert (items (self f2) = items (self f)) as Hitems2.
    { destruct Hpause as (? & ? & -> & _). exact Hitems. }
    destruct (IH (i + batchSize) f2) as (f' & Hrun & Hrest); [lia| |].
    { rewrite Hitems2. lia. }
    exists f'. split; [exact Hrun|].
    rewrite Hitems2 in Hrest.
    replace (drop (Z.to_nat i) (items (self f)))
      with (batch ++ [] ++ drop (Z.to_nat (i + batchSize)) (items (self f))).
    + eapply advanced_app; [exact Hbatch|].
      eapply advanced_app; [exact Hpause | exact Hrest].
    + subst batch. simpl.
      rewrite <- (take_drop (Z.to_nat batchSize) (drop (Z.to_nat i) (items (self f)))) at 2.
      rewrite drop_drop. do 2 f_equal. lia.
  - exists f. split; [reflexivity|].
    rewrite drop_ge by lia. apply advanced_nil.
Qed.

End Batch.

(** *** The loops of [processAll] against the job of the specification *)

Section BatchRefinement.

Import RateLimitBatchProcessor.

Context {W T R : Type}.
Variable Date_now : W -> Z.
Variable sleep : number -> W -> W.
Variable process : T -> W -> settled R * W.
Variable onProgress : option (progress (W := W)).
Variable total batchSize : Z.

Local Abbreviation frame := (frame (W := W) (T := T) (R := R)).
Local Abbreviation job := (Sequential.job (W := W) (T := T) (R := R)).
Local Abbreviation process_item := (process_item Date_now sleep onProgress total).
Local Abbreviation process_batch := (process_batch Date_now sleep onProgress total).
Local Abbreviation one_item := (Sequential.one_item Date_now sleep process onProgress total).
Local Abbreviation between_chunks := (Sequential.between_chunks sleep total batchSize).
Local Abbreviation run := (Sequential.run Date_now sleep process onProgress total batchSize).

Lemma progress_calls_app (a b : list (event (T := T) (R := R))) :
  progress_calls (a ++ b) = progress_calls a ++ progress_calls b.
Proof. apply omap_app. Qed.

(** One round of the inner loop is one item of the job. *)
Lemma process_item_job (x : T) (f : frame) :
  processor (self f) = process ->
  job_of (process_item x f) = one_item (job_of f) x.
Proof.
  intros Hp.
  unfold RateLimitBatchProcessor.process_item, Sequential.one_item, job_of.
  rewrite Hp. simpl.
  destruct (process x (fst (env f))) as [outcome w'].
  destruct outcome as [r|e]; [|destruct e as [e|e|d]];
    destruct onProgress as [cb|];
    unfold RateLimitUtils.waitForRateLimit, fire, Sequential.quota_pause,
      Sequential.tell, Sequential.wait; simpl;
    repeat match goal with
           | |- context [if gt ?a ?b then _ else _] => destruct (gt a b)
           end;
    simpl; rewrite ?progress_calls_app; simpl;
    rewrite ?app_nil_r, <- ?app_assoc; reflexivity.
Qed.

Lemma process_item_processor (x : T) (f : frame) :
  processor (self (process_item x f)) = processor (self f).
Proof.
  destruct (process_item_advanced Date_now sleep onProgress total x f)
    as (_ & _ & _ & H & _). exact H.
Qed.

Lemma process_batch_job (xs : list T) (f : frame) :
  processor (self f) = process ->
  job_of (process_batch xs f) = foldl one_item (job_of f) xs.
Proof.
  revert f. induction xs as [|x xs IH]; intros f Hp; [reflexivity|].
  unfold RateLimitBatchProcessor.process_batch in *. simpl.
  rewrite IH by (now rewrite process_item_processor).
  now rewrite process_item_job.
Qed.

Lemma handled_one_item (j : job) (x : T) :
  Sequential.handled (one_item j x) = Sequential.handled j + 1.
Proof.
  unfold Sequential.one_item.
  destruct (process x (Sequential.world j)) as [outcome w'].
  destruct outcome as [r|e]; [|destruct e as [e|e|d]];
    unfold Sequential.quota_pause, Sequential.tell, Sequential.wait;
    destruct onProgress as [cb|]; simpl;
    repeat match goal with
           | |- context [if gt ?a ?b then _ else _] => destruct (gt a b)
           end;
    reflexivity.
Qed.

Lemma handled_items (xs : list T) (j : job) :
  Sequential.handled (foldl one_item j xs)
    = Sequential.handled j + Z.of_nat (length xs).
Proof.
  revert j. induction xs as [|x xs IH]; intros j; simpl; [lia|].
  rewrite IH, handled_one_item. lia.
Qed.

(** Strictly inside a chunk there is no pause. *)
Lemma between_chunks_inside (j : job) (i : Z) :
  1 <= batchSize -> i mod batchSize = 0 ->
  i < Sequential.handled j < i + batchSize ->
  between_chunks j = j.
Proof.
  intros Hb Hi Hj. unfold Sequential.between_chunks.
  replace (Sequential.handled j mod batchSize) with (Sequential.handled j - i).
  - destruct (Z.eqb_spec (Sequential.handled j - i) 0); [lia|reflexivity].
  - apply Z.mod_divide in Hi as [q ->]; [|lia].
    replace (Sequential.handled j)
      with (Sequential.handled j - q * batchSize + q * batchSize) at 2 by lia.
    rewrite Z_mod_plus_full, Z.mod_small; lia.
Qed.

Lemma run_inside (xs : list T) (j : job) (i : Z) :
  1 <= batchSize -> i mod batchSize = 0 ->
  i <= Sequential.handled j ->
  Sequential.handled j + Z.of_nat (length xs) < i + batchSize ->
  run j xs = foldl one_item j xs.
Proof.
  intros Hb Hi. revert j. induction xs as [|x xs IH]; intros j Hj Hlen;
    [reflexivity|].
  unfold Sequential.run in *. simpl in *.
  rewrite (between_chunks_inside _ i) by (rewrite ?handled_one_item; lia).
  apply IH; rewrite handled_one_item; lia.
Qed.

(** A chunk of the job: its items, then the pause when items are left. *)
Lemma run_chunk (xs : list T) (j : job) (i : Z) :
  1 <= batchSize -> i mod batchSize = 0 ->
  Sequential.handled j = i -> i < total ->
  Z.of_nat (length xs) = Z.min batchSize (total - i) ->
  run j xs =
    if i + batchSize <? total
    then Sequential.wait sleep (Int 100) (foldl one_item j xs)
    else foldl one_item j xs.
Proof.
  intros Hb Hi Hj Hlt Hlen.
  destruct (Z.le_gt_cases batchSize (total - i)) as [Hfull|Hpart].
  - rewrite Z.min_l in Hlen by lia.
    destruct xs as [|x ys _] using rev_ind; [simpl in Hlen; lia|].
    rewrite length_app in Hlen. simpl in Hlen.
    unfold Sequential.run. rewrite !foldl_app. simpl.
    change (foldl (fun j0 x0 => between_chunks (one_item j0 x0)) j ys)
      with (run j ys).
    rewrite (run_inside ys j i) by lia.
    unfold Sequential.between_chunks.
    rewrite handled_one_item, handled_items, Hj.
    replace (i + Z.of_nat (length ys) + 1) with (i + 1 * batchSize) by lia.
    rewrite Z_mod_plus_full, Hi, Z.mul_1_l. reflexivity.
  - rewrite Z.min_r in Hlen by lia.
    rewrite (run_inside xs j i) by lia.
    destruct (Z.ltb_spec (i + batchSize) total); [lia|reflexivity].
Qed.

Lemma run_app (xs ys : list T) (j : job) :
  run j (xs ++ ys) = run (run j xs) ys.
Proof. apply foldl_app. Qed.

(** The outer loop from index [i] is the job on the items from [i] on. *)
Lemma chunks_job (fuel : nat) :
  1 <= batchSize ->
  forall (i : Z) (f f' : frame),
    0 <= i -> i mod batchSize = 0 ->
    processor (self f) = process ->
    total = Z.of_nat (length (items (self f))) ->
    (i < total -> completed f = i) ->
    chunks Date_now sleep fuel onProgress total batchSize i f = Some f' ->
    job_of f' = run (job_of f) (drop (Z.to_nat i) (items (self f))).
Proof.
  intros Hb. induction fuel as [|fuel IH];
    intros i f f' Hi Hmod Hp Htotal Hdone Hrun; [discriminate|].
  simpl in Hrun. rewrite <- Htotal in Hrun.
  destruct (Z.ltb_spec i total) as [Hlt|Hge].
  - rewrite slice_chunk in Hrun by lia.
    set (batch := take (Z.to_nat batchSize) (drop (Z.to_nat i) (items (self f)))) in *.
    pose proof (process_batch_advanced Date_now sleep onProgress total batch f)
      as (_ & _ & Hitems & Hproc & _ & _ & Hcount & _).
    pose proof (process_batch_job batch f Hp) as Hjob.
    set (f1 := process_batch batch f) in *.
    rewrite Hitems, <- Htotal in Hrun.
    assert (Z.of_nat (length batch) = Z.min batchSize (total - i)) as Hlen.
    { subst batch. rewrite length_take, length_drop. lia. }
    set (f2 := if i + batchSize <? total then _ else f1) in Hrun.
    assert (self f2 = self f1 /\ completed f2 = completed f1) as [Hself Hsame]
      by (subst f2; destruct (i + batchSize <? total); split; reflexivity).
    assert (job_of f2 = run (job_of f) batch) as Hjob2.
    { rewrite (run_chunk batch (job_of f) i), <- Hjob by (simpl; auto; lia).
      subst f2. destruct (i + batchSize <? total); [|reflexivity].
      unfold job_of, Sequential.wait. simpl.
      now rewrite progress_calls_app, app_nil_r. }
    apply IH in Hrun; rewrite ?Hself; try congruence; try lia.
    + rewrite Hrun, Hself, Hitems, Hjob2, <- run_app. f_equal.
      subst batch.
      rewrite <- (take_drop (Z.to_nat batchSize) (drop (Z.to_nat i) (items (self f)))) at 2.
      rewrite drop_drop. do 2 f_equal. lia.
    + replace ((i + batchSize) mod batchSize) with (i mod batchSize); [exact Hmod|].
      replace (i + batchSize) with (i + 1 * batchSize) by lia.
      now rewrite Z_mod_plus_full.
  - injection Hrun as <-. rewrite drop_ge by lia. reflexivity.
Qed.

(** Entries that were there before stay in front. *)
Lemma one_item_after_entries (rs : list R) (es : list (T * thrown)) (j : job) (x : T) :
  one_item (Sequential.after_entries rs es j) x
    = Sequential.after_entries rs es (one_item j x).
Proof.
  unfold Sequential.one_item, Sequential.after_entries. simpl.
  destruct (process x (Sequential.world j)) as [outcome w'].
  destruct outcome as [r|e]; [|destruct e as [e|e|d]];
    unfold Sequential.quota_pause, Sequential.tell, Sequential.wait;
    destruct onProgress as [cb|]; simpl;
    repeat match goal with
           | |- context [if gt ?a ?b then _ else _] => destruct (gt a b)
           end;
    simpl; rewrite <- ?app_assoc; reflexivity.
Qed.

Lemma run_after_entries (rs : list R) (es : list (T * thrown)) (xs : list T) (j : job) :
  run (Sequential.after_entries rs es j) xs
    = Sequential.after_entries rs es (run j xs).
Proof.
  revert j. induction xs as [|x xs IH]; intros j; [reflexivity|].
  unfold Sequential.run in *. simpl.
  rewrite one_item_after_entries.
  replace (between_chunks (Sequential.after_entries rs es (one_item j x)))
    with (Sequential.after_entries rs es (between_chunks (one_item j x))).
  - apply IH.
  - unfold Sequential.between_chunks. simpl.
    destruct ((_ =? 0) && _); reflexivity.
Qed.

End BatchRefinement.

Section ProcessAll.

Import RateLimitBatchProcessor.

Context {W T R : Type}.
Variable Date_now : W -> Z.
Variable sleep : number -> W -> W.

Lemma outcomes_partition (log : list (T * settled R)) :
  (length (successes log) + length (failures log))%nat = length log.
Proof.
  induction log as [|[x [r|e]] log IH]; simpl; [reflexivity| |];
    unfold successes, failures in *; simpl; lia.
Qed.

Lemma rate_limit_failures_are_failures (log : list (T * settled R)) :
  (length (rate_limit_failures log) <= length (failures log))%nat.
Proof.
  induction log as [|[x [r|e]] log IH]; simpl; [lia| |];
    unfold rate_limit_failures, failures in *; simpl; [lia|].
  destruct (RateLimitUtils.getRateLimitInfo e); simpl; lia.
Qed.

(** [processAll] on an instance whose accumulators already hold entries:
    the call ends, goes through every item, and adds its outcomes after the
    entries that were there. *)
Lemma processAll_appends (this : t (W := W) (T := T) (R := R))
    (onProgress : option progress) (batchSize : option Z) (w : W) (fuel : nat) :
  1 <= default 10 batchSize ->
  (length (items this) < fuel)%nat ->
  exists out this' w' tr,
    processAll Date_now sleep fuel this onProgress batchSize w
      = Some (out, this', (w', tr)) /\
    items this' = items this /\
    processor this' = processor this /\
    results this' = out_results out /\
    errors this' = out_errors out /\
    (processed tr).*1 = items this /\
    out_results out = results this ++ successes (processed tr) /\
    out_errors out = errors this ++ failures (processed tr) /\
    item_progress tr =
      match onProgress with
      | Some _ => (fun c => (c, Z.of_nat (length (items this))))
                    <$> seqZ 1 (Z.of_nat (length (items this)))
      | None => []
      end /\
    length (progress_calls tr) =
      match onProgress with
      | Some _ => (length (items this) + length (rate_limit_failures (processed tr)))%nat
      | None => 0%nat
      end.
Proof.
  intros Hb Hfuel. unfold processAll.
  destruct (chunks_advanced Date_now sleep onProgress
              (Z.of_nat (length (items this))) (default 10 batchSize) fuel Hb 0
              {| self := this; completed := 0; env := (w, []) |})
    as (f' & -> & log & L1 & L2 & L3 & L4 & L5 & L6 & L7 & L8 & L9);
    [lia | simpl; lia |].
  simpl in *.
  exists {| out_results := results (self f'); out_errors := errors (self f') |},
         (self f'), (fst (env f')), (snd (env f')).
  rewrite <- surjective_pairing, L7. simpl.
  repeat split; auto.
Qed.

(** [processAll] against the job of the specification: the call ends, and
    its arrays, the world it leaves and the calls of the observer are those
    of the job run on the items from the given world, after the entries the
    instance already held. *)
Lemma processAll_runs (this : t (W := W) (T := T) (R := R))
    (onProgress : option progress) (batchSize : option Z) (w : W) (fuel : nat) :
  1 <= default 10 batchSize ->
  (length (items this) < fuel)%nat ->
  let j :=
    Sequential.run Date_now sleep (processor this) onProgress
      (Z.of_nat (length (items this))) (default 10 batchSize)
      (Sequential.mkJob [] [] 0 w []) (items this) in
  exists this' tr,
    processAll Date_now sleep fuel this onProgress batchSize w
      = Some ({| out_results := results this ++ Sequential.succeeded j;
                 out_errors := errors this ++ Sequential.failed j |},
              this', (Sequential.world j, tr)) /\
    items this' = items this /\
    processor this' = processor this /\
    results this' = results this ++ Sequential.succeeded j /\
    errors this' = errors this ++ Sequential.failed j /\
    progress_calls tr = Sequential.told j /\
    (processed tr).*1 = items this /\
    Sequential.succeeded j = successes (processed tr) /\
    Sequential.failed j = failures (processed tr) /\
    item_progress tr =
      match onProgress with
      | Some _ => (fun c => (c, Z.of_nat (length (items this))))
                    <$> seqZ 1 (Z.of_nat (length (items this)))
      | None => []
      end /\
    length (progress_calls tr) =
      match onProgress with
      | Some _ => (length (items this) + length (rate_limit_failures (processed tr)))%nat
      | None => 0%nat
      end.
Proof.
  intros Hb Hfuel j.
  destruct (processAll_appends this onProgress batchSize w fuel Hb Hfuel)
    as (out & this' & w' & tr & Hrun & Hi & Hpr & Hr & He & Hp & Hres & Herr & Hip & Hpc).
  unfold processAll in *.
  destruct (chunks _ _ _ _ _ _ _ _) as [f'|] eqn:Hchunks; [|discriminate].
  apply (chunks_job Date_now sleep (processor this)) in Hchunks;
    try assumption; try reflexivity; simpl; try lia; try (intros _; reflexivity).
  simpl in Hchunks. rewrite drop_0 in Hchunks.
  replace (job_of {| self := this; completed := 0; env := (w, []) |})
    with (Sequential.after_entries (results this) (errors this)
            (Sequential.mkJob (T := T) (R := R) [] [] 0 w [])) in Hchunks
    by (unfold Sequential.after_entries, job_of; simpl; now rewrite !app_nil_r).
  rewrite run_after_entries in Hchunks. fold j in Hchunks.
  injection Hrun as <- <- Henv.
  pose proof (f_equal Sequential.succeeded Hchunks) as Hs.
  pose proof (f_equal Sequential.failed Hchunks) as Hf.
  pose proof (f_equal Sequential.world Hchunks) as Hw.
  pose proof (f_equal Sequential.told Hchunks) as Ht.
  simpl in Hs, Hf, Hw, Ht, Hres, Herr. rewrite Henv in Hw, Ht. simpl in Hw, Ht.
  exists (self f'), tr.
  rewrite Hs, Hf, Henv, Hw.
  rewrite Hs in Hres. apply app_inv_head in Hres.
  rewrite Hf in Herr. apply app_inv_head in Herr.
  repeat split; auto.
Qed.

(** C8. For every list of items, a chunk size of at least one (10 when it
    is left out) and an observer: [processAll] ends, and what it resolves to
    and the world it leaves are those of the job of the specification run on
    the items, which hands each item to the processor in order, records a
    success or an (item, error) pair, tells the observer the state and waits
    after a rate-limit failure, tells the observer the new count after every
    item and pauses 100 ms between chunks; the observer was called with
    exactly the job's arguments, in its order. So every item went to the
    processor in order and once, failures included; the results are the
    successes in the order of completion and the errors are the failures as
    (item, error) pairs; after the k-th item the observer is called with the
    count k, so with 1, 2, ..., n; it is called once more for each
    rate-limit failure. When no item fails there are as many results as
    items, no error, and as many observer calls as items. *)
Theorem processAll_processes_every_item (work : list T)
    (process : T -> W -> settled R * W) (onProgress : progress)
    (batchSize : option Z) (w : W) (fuel : nat) :
  1 <= default 10 batchSize ->
  (length work < fuel)%nat ->
  let j :=
    Sequential.run Date_now sleep process (Some onProgress)
      (Z.of_nat (length work)) (default 10 batchSize)
      (Sequential.mkJob [] [] 0 w []) work in
  exists this' tr,
    processAll Date_now sleep fuel (constructor work process)
      (Some onProgress) batchSize w
      = Some ({| out_results := Sequential.succeeded j;
                 out_errors := Sequential.failed j |},
              this', (Sequential.world j, tr)) /\
    this' = {| items := work; processor := process;
               results := Sequential.succeeded j;
               errors := Sequential.failed j |} /\
    progress_calls tr = Sequential.told j /\
    (processed tr).*1 = work /\
    Sequential.succeeded j = successes (processed tr) /\
    Sequential.failed j = failures (processed tr) /\
    item_progress tr =
      (fun c => (c, Z.of_nat (length work))) <$> seqZ 1 (Z.of_nat (length work)) /\
    length (progress_calls tr) =
      (length work + length (rate_limit_failures (processed tr)))%nat /\
    (failures (processed tr) = [] ->
     length (Sequential.succeeded j) = length work /\
     Sequential.failed j = [] /\
     length (progress_calls tr) = length work).
Proof.
  intros Hb Hfuel j.
  destruct (processAll_runs (constructor work process) (Some onProgress)
              batchSize w fuel Hb Hfuel)
    as (this' & tr & Hrun & Hi & Hpr & Hr & He & Htold & Hp & Hs & Hf & Hip & Hpc).
  simpl in *. fold j in Hrun, Hr, He, Htold, Hs, Hf.
  exists this', tr.
  split; [exact Hrun|].
  split; [destruct this'; simpl in *; congruence|].
  do 6 (split; [assumption|]).
  intros Hnone.
  pose proof (outcomes_partition (processed tr)) as Hlen.
  pose proof (rate_limit_failures_are_failures (processed tr)) as Hle.
  rewrite Hnone in Hlen, Hle. simpl in Hlen, Hle.
  split; [|split].
  - rewrite Hs, <- Hp, length_fmap. lia.
  - now rewrite Hf.
  - rewrite Hpc. lia.
Qed.

(** C10. The accumulators are fields of the instance and [processAll] never
    empties them: a second call on the same instance, in whatever world,
    runs the job of the specification on every item again, from that world,
    and resolves to arrays that start with all the entries of the first
    call, followed by the outcomes of the second job; together they hold two
    entries per item, and after two runs without failure the results are
    twice as many as the items. *)
Theorem processAll_twice_accumulates (work : list T)
    (process : T -> W -> settled R * W) (onProgress : option progress)
    (batchSize : option Z) (w w_again : W) (fuel : nat) :
  1 <= default 10 batchSize ->
  (length work < fuel)%nat ->
  let job_from (w0 : W) :=
    Sequential.run Date_now sleep process onProgress
      (Z.of_nat (length work)) (default 10 batchSize)
      (Sequential.mkJob [] [] 0 w0 []) work in
  let j1 := job_from w in
  let j2 := job_from w_again in
  exists this1 tr1 this2 tr2,
    processAll Date_now sleep fuel (constructor work process)
      onProgress batchSize w
      = Some ({| out_results := Sequential.succeeded j1;
                 out_errors := Sequential.failed j1 |},
              this1, (Sequential.world j1, tr1)) /\
    processAll Date_now sleep fuel this1
      onProgress batchSize w_again
      = Some ({| out_results := Sequential.succeeded j1 ++ Sequential.succeeded j2;
                 out_errors := Sequential.failed j1 ++ Sequential.failed j2 |},
              this2, (Sequential.world j2, tr2)) /\
    progress_calls tr1 = Sequential.told j1 /\
    progress_calls tr2 = Sequential.told j2 /\
    (processed tr1).*1 = work /\
    (processed tr2).*1 = work /\
    Sequential.succeeded j2 = successes (processed tr2) /\
    Sequential.failed j2 = failures (processed tr2) /\
    (length (Sequential.succeeded j1 ++ Sequential.succeeded j2) +
     length (Sequential.failed j1 ++ Sequential.failed j2) = 2 * length work)%nat /\
    (Sequential.failed j1 = [] -> Sequential.failed j2 = [] ->
     length (Sequential.succeeded j1 ++ Sequential.succeeded j2)
       = (2 * length work)%nat /\
     Sequential.failed j1 ++ Sequential.failed j2 = []).
Proof.
  intros Hb Hfuel. cbv zeta.
  destruct (processAll_runs (constructor work process) onProgress
              batchSize w fuel Hb Hfuel)
    as (this1 & tr1 & Hrun1 & Hi1 & Hpr1 & Hr1 & He1 & Ht1 & Hp1 & Hs1 & Hf1 & _).
  simpl in *.
  destruct (processAll_runs this1 onProgress batchSize w_again fuel Hb)
    as (this2 & tr2 & Hrun2 & _ & _ & _ & _ & Ht2 & Hp2 & Hs2 & Hf2 & _).
  { now rewrite Hi1. }
  rewrite Hi1, Hpr1, Hr1, He1 in *.
  set (j1 := Sequential.run _ _ _ _ _ _ (Sequential.mkJob [] [] 0 w []) work) in *.
  set (j2 := Sequential.run _ _ _ _ _ _ (Sequential.mkJob [] [] 0 w_again []) work) in *.
  exists this1, tr1, this2, tr2.
  pose proof (outcomes_partition (processed tr1)) as Hlen1.
  pose proof (outcomes_partition (processed tr2)) as Hlen2.
  assert (length (processed tr1) = length work) as Hn1
    by now rewrite <- Hp1, length_fmap.
  assert (length (processed tr2) = length work) as Hn2
    by now rewrite <- Hp2, length_fmap.
  split; [exact Hrun1|]. split; [exact Hrun2|]. do 6 (split; [assumption|]).
  rewrite !length_app, Hs1, Hs2, Hf1, Hf2.
  split; [lia|].
  intros Hnone1 Hnone2. rewrite Hnone1, Hnone2 in *. simpl in *. split; [lia|reflexivity].
Qed.

End ProcessAll.

(** [processAll_processes_every_item] on 23 items that all succeed, in chunks
    of 10: 23 results, no error, 23 calls of the observer. *)
Lemma processAll_23_items_witness :
  exists out this' st,
    RateLimitBatchProcessor.processAll id clock_sleep 24
      (RateLimitBatchProcessor.constructor (seqZ 1 23) doubling)
      (Some silent) (Some 10) 0 = Some (out, this', st) /\
    length (RateLimitBatchProcessor.out_results out) = 23%nat /\
    RateLimitBatchProcessor.out_errors out = [] /\
    length (RateLimitBatchProcessor.progress_calls (snd st)) = 23%nat.
Proof.
  destruct (processAll_processes_every_item id clock_sleep (seqZ 1 23) doubling
              silent (Some 10) 0 24)
    as (this' & tr & Hrun & _ & Htold & _ & _ & _ & _ & Hpc & _);
    [simpl; lia | vm_compute; lia |].
  eexists _, this', (_, tr). split; [exact Hrun|].
  split; [vm_compute; reflexivity|]. split; [vm_compute; reflexivity|].
  simpl. rewrite Htold. vm_compute. reflexivity.
Defined.

(** The same run, computed: the counts 1 to 23 and the two pauses between the
    three chunks. *)
Example processAll_23_items_run :
  match RateLimitBatchProcessor.processAll id clock_sleep 24
          (RateLimitBatchProcessor.constructor (seqZ 1 23) doubling)
          (Some silent) (Some 10) 0 with
  | Some (out, _, (w', tr)) =>
      RateLimitBatchProcessor.out_results out = (fun x => 2 * x) <$> seqZ 1 23 /\
      RateLimitBatchProcessor.out_errors out = [] /\
      (RateLimitBatchProcessor.progress_calls tr).*1.*1 = seqZ 1 23 /\
      length (List.filter
                (fun e => match e with
                          | RateLimitBatchProcessor.Slept (Int 100) => true
                          | _ => false
                          end) tr) = 2%nat /\
      w' = 200
  | None => False
  end.
Proof. vm_compute. repeat split. Qed.

(** [processAll_twice_accumulates] on three items of which the second
    fails. *)
Lemma processAll_twice_witness :
  exists out1 this1 st1 out2 this2 st2,
    RateLimitBatchProcessor.processAll id clock_sleep 4
      (RateLimitBatchProcessor.constructor [1; 2; 3] odd_only)
      None None 0 = Some (out1, this1, st1) /\
    RateLimitBatchProcessor.processAll id clock_sleep 4 this1
      None None 0 = Some (out2, this2, st2) /\
    (length (RateLimitBatchProcessor.out_results out2)
     + length (RateLimitBatchProcessor.out_errors out2) = 6)%nat.
Proof.
  destruct (processAll_twice_accumulates id clock_sleep [1; 2; 3] odd_only
              None None 0 0 4)
    as (this1 & tr1 & this2 & tr2 & Hrun1 & Hrun2 & _ & _ & _ & _ & _ & _ & Hlen & _);
    [simpl; lia | simpl; lia |].
  eexists _, this1, (_, tr1), _, this2, (_, tr2).
  split; [exact Hrun1|]. split; [exact Hrun2 | exact Hlen].
Defined.

(** Two runs on one instance, computed: the second output repeats the
    first. *)
Example processAll_twice_run :
  let first := RateLimitBatchProcessor.processAll id clock_sleep 4
                 (RateLimitBatchProcessor.constructor [1; 2; 3] odd_only)
                 None None 0 in
  match first with
  | Some (out1, this1, _) =>
      RateLimitBatchProcessor.out_results out1 = [2; 6] /\
      match RateLimitBatchProcessor.processAll id clock_sleep 4 this1 None None 0 with
      | Some (out2, _, _) =>
          RateLimitBatchProcessor.out_results out2 = [2; 6; 2; 6] /\
          RateLimitBatchProcessor.out_errors out2
          = [(2, ThrownOther "even item"); (2, ThrownOther "even item")]
      | None => False
      end
  | None => False
  end.
Proof. vm_compute. repeat split. Qed.

(** A rate-limit failure does not stop the batch: it is recorded, the
    observer is told with the count as it stands, the processor waits for the
    reset, and the next item follows. *)
Example processAll_rate_limited_run :
  RateLimitBatchProcessor.processAll id clock_sleep 3
    (RateLimitBatchProcessor.constructor [1; 2] limited_first)
    (Some silent) None 0
  = let st := integer_state 60 0 500 1 in
    let e := ThrownRateLimit
               {| message := "Rate limit exceeded. Retry after 1 seconds.";
                  rateLimitHeaders := st |} in
    Some (RateLimitBatchProcessor.mkOutput [4] [(1, e)],
          RateLimitBatchProcessor.mk [1; 2] limited_first [4] [(1, e)],
          (500,
           [RateLimitBatchProcessor.Processed 1 (Rejected e);
            RateLimitBatchProcessor.ProgressFired 0 2 (Some st);
            RateLimitBatchProcessor.Slept (Int 500);
            RateLimitBatchProcessor.ProgressFired 1 2 None;
            RateLimitBatchProcessor.Processed 2 (Resolved 4);
            RateLimitBatchProcessor.ProgressFired 2 2 None])).
Proof. vm_compute. reflexivity. Qed.

(* ===================================================================== *)
(** * Part 3: further properties of the same code                        *)
(* ===================================================================== *)

(** ** [parseInt] reads back what [String] prints *)

Section Numerals.

Lemma digits_string_of_uint (d : Decimal.uint) (acc : Z) :
  digits (Some acc) (NilEmpty.string_of_uint d) = Some (uint_value acc d).
Proof.
  revert acc. induction d; intros acc; simpl; try reflexivity; apply IHd.
Qed.

Lemma of_uint_acc_value (d : Decimal.uint) (p : positive) :
  Z.pos (Pos.of_uint_acc d p) = uint_value (Z.pos p) d.
Proof.
  revert p. induction d; intros p; simpl; try reflexivity;
    rewrite IHd; f_equal; lia.
Qed.

Lemma of_uint_value (d : Decimal.uint) : Z.of_uint d = uint_value 0 d.
Proof.
  unfold Z.of_uint. induction d; simpl; try reflexivity; try exact IHd;
    apply of_uint_acc_value.
Qed.

Lemma parseInt_string_of_uint (d : Decimal.uint) :
  d <> Decimal.Nil ->
  parseInt (NilEmpty.string_of_uint d) = Int (uint_value 0 d) /\
  parseInt (String "-" (NilEmpty.string_of_uint d)) = Int (- uint_value 0 d).
Proof.
  intros Hd. destruct d; try congruence;
    unfold parseInt; simpl; rewrite digits_string_of_uint; split; reflexivity.
Qed.

(** In the model, where [parseInt] gives the value of the numeral, printing
    an integer and parsing it gives the integer back.  The code does so for
    the integers a double holds exactly. *)
Lemma parseInt_toString (z : Z) : parseInt (toString (Int z)) = Int z.
Proof.
  unfold toString.
  pose proof (DecimalZ.of_to z) as Hz.
  destruct z as [|p|p]; [reflexivity| |];
    pose proof (Unsigned.to_uint_nonnil p) as Hnn;
    destruct (parseInt_string_of_uint _ Hnn) as [Hpos Hneg];
    simpl Z.to_int in *; simpl Z.of_int in Hz; rewrite of_uint_value in Hz;
    unfold NilZero.string_of_int, NilZero.string_of_uint.
  - destruct (Pos.to_uint p); try congruence; rewrite Hpos; now f_equal.
  - destruct (Pos.to_uint p); try congruence; rewrite Hneg; f_equal; lia.
Qed.

(** A printed number is never the empty string, so it is truthy. *)
Lemma truthy_toString (a : number) : truthy (Some (toString a)) = true.
Proof.
  destruct a as [|[]|z]; try reflexivity.
  unfold toString, NilZero.string_of_int, NilZero.string_of_uint.
  destruct (Z.to_int z) as [d|d]; destruct d; reflexivity.
Qed.

End Numerals.

Section ParserRoundTrip.

Import RateLimitHandler.

Variable Date_parse : string -> number.

(** X1. Headers that carry the decimal text of three integers a double holds
    exactly (at most 2^53 - 1 in absolute value), and any non-empty reset
    value, are parsed to exactly those integers: the state read from a
    response is the one the server wrote. *)
Theorem parseRateLimitHeaders_reads_integers (r : AxiosResponse)
    (l rem ra : Z) (rs : string) :
  Z.abs l <= 2 ^ 53 - 1 -> Z.abs rem <= 2 ^ 53 - 1 -> Z.abs ra <= 2 ^ 53 - 1 ->
  headers r !! "x-ratelimit-limit"%string = Some (toString (Int l)) ->
  headers r !! "x-ratelimit-remaining"%string = Some (toString (Int rem)) ->
  headers r !! "x-ratelimit-reset"%string = Some rs ->
  headers r !! "x-ratelimit-retry-after"%string = Some (toString (Int ra)) ->
  rs <> ""%string ->
  parseRateLimitHeaders Date_parse r
  = Some {| limit := Int l; remaining := Int rem;
            reset := mkDate (Date_parse rs); retryAfter := Int ra |}.
Proof.
  intros _ _ _ H1 H2 H3 H4 Hrs. unfold parseRateLimitHeaders.
  rewrite H1, H2, H3, H4, !truthy_toString.
  assert (truthy (Some rs) = true) as ->
    by (simpl; now destruct (String.eqb_spec rs "")).
  cbn -[toString parseInt]. now rewrite !parseInt_toString.
Qed.

(** What decides between a state and [null] is only whether each of the four
    values is there and non-empty. *)
Lemma parseRateLimitHeaders_None (r : AxiosResponse) :
  parseRateLimitHeaders Date_parse r = None <->
  exists k, k ∈ required_headers /\
            (headers r !! k = None \/ headers r !! k = Some ""%string).
Proof.
  assert (forall v, truthy v = false <-> v = None \/ v = Some ""%string) as Hf.
  { intros [s|]; simpl; [|split; auto].
    destruct (String.eqb_spec s "") as [->|Hne]; simpl; split; auto.
    - discriminate.
    - intros [H|H]; [discriminate | congruence]. }
  unfold parseRateLimitHeaders, required_headers. split.
  - destruct (truthy (headers r !! "x-ratelimit-limit"%string)) eqn:E1;
      [|intros _; exists "x-ratelimit-limit"%string;
        split; [rewrite !elem_of_cons; auto 10 | exact (proj1 (Hf _) E1)]].
    destruct (truthy (headers r !! "x-ratelimit-remaining"%string)) eqn:E2;
      [|intros _; exists "x-ratelimit-remaining"%string;
        split; [rewrite !elem_of_cons; auto 10 | exact (proj1 (Hf _) E2)]].
    destruct (truthy (headers r !! "x-ratelimit-reset"%string)) eqn:E3;
      [|intros _; exists "x-ratelimit-reset"%string;
        split; [rewrite !elem_of_cons; auto 10 | exact (proj1 (Hf _) E3)]].
    destruct (truthy (headers r !! "x-ratelimit-retry-after"%string)) eqn:E4;
      [|intros _; exists "x-ratelimit-retry-after"%string;
        split; [rewrite !elem_of_cons; auto 10 | exact (proj1 (Hf _) E4)]].
    discriminate.
  - intros (k & Hk & Hv). apply Hf in Hv.
    rewrite !elem_of_cons, elem_of_nil in Hk.
    destruct Hk as [->|[->|[->|[->|[]]]]]; rewrite Hv; simpl;
      repeat match goal with
             | |- context [truthy ?v] => destruct (truthy v); simpl
             end; reflexivity.
Qed.

(** X2. [shouldThrottle] on a response whose quota cannot be read: when a
    required header is absent or empty, or when the parsed remaining count or
    limit is not a number, it answers [false]. An unreadable quota never
    throttles. *)
Theorem shouldThrottle_unreadable (r : AxiosResponse) :
  ((exists k, k ∈ required_headers /\
              (headers r !! k = None \/ headers r !! k = Some ""%string)) \/
   (exists st, parseRateLimitHeaders Date_parse r = Some st /\
               (remaining st = NaN \/ limit st = NaN))) ->
  shouldThrottle Date_parse r = false.
Proof.
  unfold shouldThrottle. intros [Hk|(st & -> & [Hr|Hl])].
  - apply parseRateLimitHeaders_None in Hk. now rewrite Hk.
  - now rewrite Hr.
  - rewrite Hl. simpl. unfold le, Math_max. simpl.
    now destruct (remaining st).
Qed.

(** X3. [shouldThrottle] on a response whose state has integer fields, the
    limit being below 10^15 in absolute value (where [Math.floor(limit * 0.1)]
    is the floor of the tenth): it throttles exactly when remaining is at
    most max(1, floor(limit / 10)); in particular a response with at most one
    request left is always throttled. *)
Theorem shouldThrottle_threshold (r : AxiosResponse) (l rem t ra : Z) :
  Z.abs l < 10 ^ 15 ->
  parseRateLimitHeaders Date_parse r = Some (integer_state l rem t ra) ->
  (shouldThrottle Date_parse r = true <-> rem <= Z.max 1 (l / 10)) /\
  (rem <= 1 -> shouldThrottle Date_parse r = true).
Proof.
  intros _ Hp. unfold shouldThrottle. rewrite Hp.
  unfold Math_floor_tenth, floor_quot. cbn [integer_state limit remaining].
  rewrite Math_max_Int, le_Int.
  split; [apply Z.leb_le|]. intros H. apply Z.leb_le. lia.
Qed.

End ParserRoundTrip.

(** ** More on the helpers of [RateLimitUtils] *)

Section UtilsMore.

Import RateLimitUtils.

Ltac fields :=
  cbn [integer_state limit remaining reset retryAfter getTime].

Lemma append_assoc (a b c : string) : (a +:+ b) +:+ c = a +:+ b +:+ c.
Proof.
  induction a as [|x a IH]; [reflexivity|].
  change (String x ((a +:+ b) +:+ c) = String x (a +:+ b +:+ c)).
  now rewrite IH.
Qed.

(** X4. On a state with integer fields the wait never is negative and never
    goes past the reset: [0 <= getWaitTime <= max(0, reset - now)]. *)
Theorem getWaitTime_bounds (l r t ra now : Z) :
  exists c, getWaitTime (integer_state l r t ra) now = Int c /\
            0 <= c <= Z.max 0 (t - now).
Proof.
  destruct (Z.le_gt_cases t now) as [Hle|Hgt].
  - exists 0. rewrite getWaitTime_passed by lia. split; [reflexivity | lia].
  - rewrite getWaitTime_pending by lia.
    destruct (Z.ltb_spec 0 r) as [Hr|Hr].
    + exists (ceil_quot (t - now) r). split; [reflexivity|].
      pose proof (ceil_quot_spec (t - now) r Hr). nia.
    + exists (t - now). split; [reflexivity | lia].
Qed.

(** X5. On a state with integer fields [calculateBatchDelay] is 0 when
    requests remain and the planned ones fit, and in every other case it is
    the wait [getWaitTime] gives at the same instant. *)
Theorem calculateBatchDelay_getWaitTime (l r t ra planned now : Z) :
  calculateBatchDelay (integer_state l r t ra) (Int planned) now =
    if (0 <? r) && (planned <=? r) then Int 0
    else getWaitTime (integer_state l r t ra) now.
Proof.
  rewrite calculateBatchDelay_Int.
  destruct (Z.ltb_spec 0 r) as [Hr|Hr], (Z.leb_spec r 0) as [Hr0|Hr0]; try lia;
    destruct (Z.leb_spec planned r) as [Hp|Hp]; cbn [andb];
    try reflexivity;
    destruct (Z.le_gt_cases t now) as [Hle|Hgt];
    rewrite ?getWaitTime_passed, ?getWaitTime_pending by lia;
    destruct (Z.leb_spec (t - now) 0); destruct (Z.ltb_spec 0 r);
    try reflexivity; try lia; f_equal; lia.
Qed.

(** X6. For [0 < limit < 2^32] and [0 <= remaining <= limit], away from the
    half-way cases (where [100 * used / limit] is an integer plus one half and
    the double product of the code may fall on either side), the usage is a
    whole percentage between 0 and 100 that does not grow when more requests
    remain; it is 0 when nothing was used. *)
Theorem getRateLimitUsagePercent_range (l r r' t ra : Z) :
  0 < l < 2 ^ 32 -> 0 <= r <= r' -> r' <= l ->
  (200 * (l - r)) mod (2 * l) <> l ->
  (200 * (l - r')) mod (2 * l) <> l ->
  exists p p',
    getRateLimitUsagePercent (integer_state l r t ra) = Int p /\
    getRateLimitUsagePercent (integer_state l r' t ra) = Int p' /\
    0 <= p' <= p /\ p <= 100 /\
    getRateLimitUsagePercent (integer_state l l t ra) = Int 0.
Proof.
  intros Hl Hr Hr' _ _.
  assert (forall x, getRateLimitUsagePercent (integer_state l x t ra)
                    = Int (round_quot (100 * (l - x)) l)) as Hu.
  { intros x. unfold getRateLimitUsagePercent. fields. rewrite sub_Int.
    unfold Math_round_percent, quot_then. now destruct (Z.eqb_spec l 0); [lia|]. }
  exists (round_quot (100 * (l - r)) l), (round_quot (100 * (l - r')) l).
  rewrite !Hu. unfold round_quot.
  repeat split.
  - apply Z.div_pos; lia.
  - apply Z.div_le_mono; lia.
  - apply Z.lt_succ_r, Z.div_lt_upper_bound; lia.
  - f_equal. rewrite Z.sub_diag. apply Z.div_small. lia.
Qed.

(** X7. For [remaining >= 0] and [maxBatchSize >= 0] the batch size
    [getOptimalBatchSize] proposes fits in what remains:
    [willExceedRateLimit] says no, and after a batch of that size at least
    the buffer max(5, floor(limit / 10)) is left whenever the batch is not
    empty. *)
Theorem getOptimalBatchSize_fits (l r t ra m : Z) :
  0 <= r -> 0 <= m ->
  exists k,
    getOptimalBatchSize (integer_state l r t ra) (Int m) = Int k /\
    willExceedRateLimit (integer_state l r t ra) (Int k) = false /\
    (0 < k -> Z.max 5 (l / 10) <= r - k).
Proof.
  intros Hr Hm. rewrite getOptimalBatchSize_Int.
  eexists. split; [reflexivity|].
  unfold willExceedRateLimit. fields. rewrite lt_Int.
  split; [apply Z.ltb_ge|]; lia.
Qed.

(** X8. A state whose remaining count is [NaN], as parsed from a garbled
    header, passes every check unnoticed: [shouldPause] and
    [willExceedRateLimit] answer [false] for every threshold and count, the
    proposed batch size is [NaN], and the status is the plain third tier
    showing "NaN". *)
Theorem NaN_remaining_unnoticed (toLocaleTimeString : Date -> string)
    (st : RateLimitHeaders) (threshold n maxBatchSize : number) :
  remaining st = NaN ->
  shouldPause st threshold = false /\
  willExceedRateLimit st n = false /\
  getOptimalBatchSize st maxBatchSize = NaN /\
  String.prefix "Rate limit status: NaN" (getRateLimitStatus toLocaleTimeString st) = true.
Proof.
  intros H.
  unfold shouldPause, willExceedRateLimit, getOptimalBatchSize, getRateLimitStatus.
  rewrite H. split; [reflexivity|]. split; [reflexivity|].
  split; [|reflexivity].
  unfold sub, Math_max, Math_min. simpl.
  destruct (Math_floor_tenth (limit st)) as [|[]|z]; simpl;
    try (destruct (5 ?= z)); simpl; now destruct maxBatchSize.
Qed.

Section Status.
Variable toLocaleTimeString : Date -> string.

(** X9. On a state with integer fields the status message always shows
    "<remaining>/<limit>", and its tier goes by remaining alone: the warning
    for a non-zero remaining up to 5, the plain status above 5. *)
Theorem getRateLimitStatus_shows_counts (l r t ra : Z) :
  includes (toString (Int r) +:+ "/" +:+ toString (Int l))
    (getRateLimitStatus toLocaleTimeString (integer_state l r t ra)) = true /\
  (r <> 0 -> r <= 5 ->
   String.prefix "Rate limit warning: Only"
     (getRateLimitStatus toLocaleTimeString (integer_state l r t ra)) = true) /\
  (5 < r ->
   String.prefix "Rate limit status:"
     (getRateLimitStatus toLocaleTimeString (integer_state l r t ra)) = true).
Proof.
  unfold getRateLimitStatus. fields.
  assert (strict_eq (Int r) (Int 0) = (r =? 0)) as ->
    by (unfold strict_eq; simpl; now rewrite Z.eqb_compare).
  rewrite le_Int.
  destruct (Z.eqb_spec r 0) as [->|Hne]; [|destruct (Z.leb_spec r 5)].
  - split; [|split; intros; lia].
    exact (includes_infix ("0/" +:+ toString (Int l)) "Rate limit reached ("
             ("). Resets at " +:+ toLocaleTimeString (mkDate (Int t)))).
  - split; [|split; intros; [reflexivity | lia]].
    set (rest := " requests remaining. Resets at " +:+ _).
    replace (toString (Int r) +:+ "/" +:+ toString (Int l) +:+ rest)
      with ((toString (Int r) +:+ "/" +:+ toString (Int l)) +:+ rest)
      by (now rewrite !append_assoc).
    apply includes_infix.
  - split; [|split; intros; [lia | reflexivity]].
    set (rest := " requests remaining. Resets at " +:+ _).
    replace (toString (Int r) +:+ "/" +:+ toString (Int l) +:+ rest)
      with ((toString (Int r) +:+ "/" +:+ toString (Int l)) +:+ rest)
      by (now rewrite !append_assoc).
    apply includes_infix.
Qed.

End Status.

End UtilsMore.

(** [getRateLimitUsagePercent_range] at limit 60 with 15 and 30 remaining. *)
Lemma getRateLimitUsagePercent_range_witness :
  exists p p',
    RateLimitUtils.getRateLimitUsagePercent (integer_state 60 15 0 0) = Int p /\
    RateLimitUtils.getRateLimitUsagePercent (integer_state 60 30 0 0) = Int p' /\
    0 <= p' <= p /\ p <= 100 /\
    RateLimitUtils.getRateLimitUsagePercent (integer_state 60 60 0 0) = Int 0.
Proof.
  apply (getRateLimitUsagePercent_range 60 15 30 0 0);
    try lia; vm_compute; discriminate.
Defined.

(** [getOptimalBatchSize_fits] at limit 60, 55 remaining, at most 20. *)
Lemma getOptimalBatchSize_fits_witness :
  exists k,
    RateLimitUtils.getOptimalBatchSize (integer_state 60 55 0 0) (Int 20) = Int k /\
    RateLimitUtils.willExceedRateLimit (integer_state 60 55 0 0) (Int k) = false /\
    (0 < k -> Z.max 5 (60 / 10) <= 55 - k).
Proof. apply (getOptimalBatchSize_fits 60 55 0 0 20); lia. Defined.

(** [NaN_remaining_unnoticed] on the state parsed from the garbled headers. *)
Lemma NaN_remaining_unnoticed_witness :
  let st := {| limit := NaN; remaining := NaN; reset := mkDate NaN; retryAfter := NaN |} in
  RateLimitUtils.shouldPause st (Int 10) = false /\
  RateLimitUtils.willExceedRateLimit st (Int 1) = false /\
  RateLimitUtils.getOptimalBatchSize st (Int 50) = NaN /\
  String.prefix "Rate limit status: NaN"
    (RateLimitUtils.getRateLimitStatus (fun _ => "Invalid Date"%string) st) = true.
Proof.
  exact (NaN_remaining_unnoticed (fun _ => "Invalid Date"%string)
           {| limit := NaN; remaining := NaN; reset := mkDate NaN; retryAfter := NaN |}
           (Int 10) (Int 1) (Int 50) eq_refl).
Defined.

(** ** More on [RateLimitHandler.handleRateLimit] *)

Section HandlerMore.

Import RateLimitHandler.

Context {W V : Type}.
Variable Date_parse : string -> number.
Variable Date_now : W -> Z.
Variable sleep : number -> W -> W.
Variable retryFn : W -> settled V * W.
Variable this : RateLimitHandler.t (W := W).

Local Abbreviation handle := (handleRateLimit Date_parse Date_now sleep).

Lemma reissues_app (a b : list event) :
  reissues (a ++ b) = (reissues a + reissues b)%nat.
Proof. unfold reissues. now rewrite List.filter_app, length_app. Qed.

(** Counts the re-issues of an explicit trace. *)
Ltac count :=
  rewrite ?reissues_app; unfold reissues in *;
  cbn [List.filter length is_reissue app] in *; lia.

(** X10. With an integer budget the call always ends, whatever the request
    does when it is re-issued, and it never re-issues the request more often
    than the budget allows. *)
Theorem handleRateLimit_bounded (m : Z) (error : AxiosError) (w : W) :
  rateLimitRetryAttempts this = Int m ->
  forall fuel, (Z.to_nat m < fuel)%nat ->
  exists r w' tr,
    handle fuel this error retryFn 0 (w, []) = Some (r, (w', tr)) /\
    Z.of_nat (reissues tr) <= Z.max 0 m.
Proof.
  intros Hm.
  assert (forall (fuel : nat) attempt e w tr,
            Z.max 0 (m - attempt) < Z.of_nat fuel ->
            exists r w' tr',
              handle fuel this e retryFn attempt (w, tr) = Some (r, (w', tr ++ tr')) /\
              Z.of_nat (reissues tr') <= Z.max 0 (m - attempt)) as Hgen.
  { induction fuel as [|fuel IH]; intros attempt e w0 tr Hle; [lia|].
    cbn [handleRateLimit]. rewrite Hm, ge_Int.
    destruct (isRateLimitError e); cbn [negb orb];
      [|exists (Rejected (ThrownRateLimit (createRateLimitError Date_parse Date_now e w0))), w0, [];
        rewrite app_nil_r; split; [reflexivity | count]].
    destruct (Z.leb_spec m attempt) as [Hex|Hlt];
      [exists (Rejected (ThrownRateLimit (createRateLimitError Date_parse Date_now e w0))), w0, [];
       rewrite app_nil_r; split; [reflexivity | count]|].
    destruct (headers_of_error Date_parse e) as [h|];
      repeat match goal with
             | |- context [onRateLimitHit this] => destruct (onRateLimitHit this)
             | |- context [onRateLimitRetry this] => destruct (onRateLimitRetry this)
             end;
      destruct (attempt =? 0);
      cbn [fire fmap option_fmap option_map fst snd];
      match goal with
      | |- context [retryFn ?x] => destruct (retryFn x) as [[v|[e'|e'|d]] w_next]
      end;
      cbn [has_response];
      try (eexists _, _, _; split;
           [rewrite <- ?app_assoc; reflexivity | count]);
      match goal with
      | |- context [handleRateLimit _ _ _ fuel this ?e1 retryFn (?a + 1) (?w1, ?t)] =>
          destruct (IH (a + 1) e1 w1 t ltac:(lia)) as (r & w_end & tr_end & -> & Hb)
      end;
      (eexists _, _, _; split;
       [rewrite <- ?app_assoc; reflexivity | count]). }
  intros fuel Hfuel.
  destruct (Hgen fuel 0 error w [] ltac:(lia)) as (r & w' & tr' & Hrun & Hb).
  exists r, w', tr'. rewrite Z.sub_0_r in Hb. split; assumption.
Qed.

(** X11. [handleRateLimit] never rejects with an [Error] that has a
    [response] property (what [has_response] recognises, an [AxiosError]):
    such a failure is either retried or replaced by a [RateLimitError].  What
    it rejects with is a [RateLimitError] or a value the test
    [retryError instanceof Error && "response" in retryError] lets through,
    which is rethrown as it is. *)
Theorem handleRateLimit_rejects_without_response (fuel : nat) :
  forall (error : AxiosError) (attempt : Z) (st st' : W * list event) (t : thrown),
    handle fuel this error retryFn attempt st = Some (Rejected t, st') ->
    has_response t = None.
Proof.
  induction fuel as [|fuel IH]; intros e attempt [w0 tr] st' t; [discriminate|].
  cbn [handleRateLimit].
  destruct (negb (isRateLimitError e) || ge (Int attempt) (rateLimitRetryAttempts this));
    [intros [= <- _]; reflexivity|].
  destruct (headers_of_error Date_parse e) as [h|];
    repeat match goal with
           | |- context [onRateLimitHit this] => destruct (onRateLimitHit this)
           | |- context [onRateLimitRetry this] => destruct (onRateLimitRetry this)
           end;
    destruct (attempt =? 0);
    cbn [fire fmap option_fmap option_map fst snd];
    match goal with
    | |- context [retryFn ?x] => destruct (retryFn x) as [[v|[e'|e'|d]] w_next]
    end;
    cbn [has_response];
    try discriminate;
    try (intros [= <- _]; reflexivity);
    apply IH.
Qed.

(** X12. With a budget that is [NaN] or [Infinity] the test
    [attempt >= rateLimitRetryAttempts] never holds: against a request that
    fails with 429 each time it is re-issued, the call never ends. *)
Theorem handleRateLimit_unbounded (error : AxiosError) :
  rateLimitRetryAttempts this = NaN \/ rateLimitRetryAttempts this = Infinity false ->
  isRateLimitError error = true ->
  (forall w, exists e w',
      retryFn w = (Rejected (ThrownAxios e), w') /\ isRateLimitError e = true) ->
  forall fuel attempt st, handle fuel this error retryFn attempt st = None.
Proof.
  intros Hbudget H429 Hop fuel. revert error H429.
  induction fuel as [|fuel IH]; intros e H429 attempt [w0 tr]; [reflexivity|].
  cbn [handleRateLimit]. rewrite H429.
  assert (ge (Int attempt) (rateLimitRetryAttempts this) = false) as ->
    by (destruct Hbudget as [->| ->]; reflexivity).
  cbn [negb orb].
  destruct (headers_of_error Date_parse e) as [h|];
    repeat match goal with
           | |- context [onRateLimitHit this] => destruct (onRateLimitHit this)
           | |- context [onRateLimitRetry this] => destruct (onRateLimitRetry this)
           end;
    destruct (attempt =? 0);
    cbn [fire fmap option_fmap option_map fst snd];
    match goal with
    | |- context [retryFn ?x] => destruct (Hop x) as (e' & w_next & -> & He')
    end;
    cbn [has_response]; now apply IH.
Qed.

(** X13. When the failures carry no rate-limit headers the handler falls
    back to exponential delays and tells no observer.  With an integer budget
    [0 <= m <= 900], a base delay that is an integer from 0 to 2^53 (so that
    every delay is computed exactly) and every attempt answered 429 without
    headers: for k = 0 .. m-1 the handler sleeps [2^k] base delays and
    re-issues the request in the world so reached; the trace is exactly these
    sleeps and re-issues; the call ends in the world left by the last
    re-issue, rejected with a [RateLimitError] carrying the fallback state
    (limit 60, remaining 0, reset one minute after the clock of that world,
    retry-after 60). *)
Theorem handleRateLimit_fallback_backoff (m d : Z) (error : AxiosError) (w : W) :
  rateLimitRetryAttempts this = Int m ->
  0 <= m <= 900 ->
  rateLimitRetryDelay this = Int d ->
  0 <= d <= 2 ^ 53 ->
  isRateLimitError error = true ->
  headers_of_error Date_parse error = None ->
  (forall w, exists e w',
      retryFn w = (Rejected (ThrownAxios e), w') /\
      isRateLimitError e = true /\ headers_of_error Date_parse e = None) ->
  forall fuel, (Z.to_nat m < fuel)%nat ->
    handle fuel this error retryFn 0 (w, [])
    = Some (Rejected (ThrownRateLimit
              {| message := "Rate limit exceeded. Please try again later.";
                 rateLimitHeaders :=
                   integer_state 60 0
                     (Date_now (fallback_world sleep retryFn this (Z.to_nat m) 0 w)
                      + 60000) 60 |}),
            (fallback_world sleep retryFn this (Z.to_nat m) 0 w,
             concat (fallback_events this <$> seqZ 0 m))).
Proof.
  intros Hm Hm0 _ _ H429 Hnone Hop.
  assert (forall (n : nat) attempt e w tr,
            Z.of_nat n = m - attempt ->
            isRateLimitError e = true -> headers_of_error Date_parse e = None ->
            forall fuel, (n < fuel)%nat ->
              handle fuel this e retryFn attempt (w, tr)
              = Some (Rejected (ThrownRateLimit
                        {| message := "Rate limit exceeded. Please try again later.";
                           rateLimitHeaders :=
                             integer_state 60 0
                               (Date_now (fallback_world sleep retryFn this n attempt w)
                                + 60000) 60 |}),
                      (fallback_world sleep retryFn this n attempt w,
                       tr ++ concat (fallback_events this <$> seqZ attempt (Z.of_nat n)))))
    as Hgen.
  { induction n as [|n IH]; intros attempt e w0 tr Hn He Hh.
    - intros [|fuel] Hfuel; [lia|].
      cbn [handleRateLimit fallback_world]. rewrite Hm, ge_Int, He.
      destruct (Z.leb_spec m attempt); [|lia].
      cbn [negb orb fst]. unfold createRateLimitError. rewrite Hh.
      now rewrite app_nil_r.
    - destruct (Hop (sleep (mul (Math_pow2 attempt) (rateLimitRetryDelay this)) w0))
        as (e' & w1 & Hfn & He' & Hh').
      intros [|fuel] Hfuel; [lia|].
      cbn [handleRateLimit fallback_world]. rewrite Hm, ge_Int, He.
      destruct (Z.leb_spec m attempt); [lia|].
      cbn [negb orb fst snd]. rewrite Hh. cbn [fst snd]. rewrite Hfn.
      cbn [has_response snd].
      rewrite (IH (attempt + 1) e' w1 _ ltac:(lia) He' Hh') by lia.
      rewrite (seqZ_cons attempt (Z.of_nat (S n))) by lia.
      replace (Z.succ attempt) with (attempt + 1) by lia.
      replace (Z.pred (Z.of_nat (S n))) with (Z.of_nat n) by lia.
      cbn [fmap list_fmap concat fallback_events].
      now rewrite <- !app_assoc. }
  intros fuel Hfuel.
  rewrite (Hgen (Z.to_nat m) 0 error w [] ltac:(lia) H429 Hnone) by lia.
  now rewrite Z2Nat.id by lia.
Qed.

(** X14. The state a [RateLimitError] carries when the failure had no
    readable headers is a conservative one: remaining 0 and a reset one
    minute after the error was made, so that [getWaitTime] on it is what is
    left of that minute and never negative. *)
Theorem createRateLimitError_fallback_wait (error : AxiosError) (w : W) (now : Z) :
  headers_of_error Date_parse error = None ->
  rateLimitHeaders (createRateLimitError Date_parse Date_now error w)
    = integer_state 60 0 (Date_now w + 60000) 60 /\
  RateLimitUtils.getWaitTime
    (rateLimitHeaders (createRateLimitError Date_parse Date_now error w)) now
    = Int (Z.max 0 (Date_now w + 60000 - now)).
Proof.
  intros Hh.
  assert (rateLimitHeaders (createRateLimitError Date_parse Date_now error w)
          = integer_state 60 0 (Date_now w + 60000) 60) as ->
    by (unfold createRateLimitError; now rewrite Hh).
  split; [reflexivity|].
  destruct (Z.le_gt_cases (Date_now w + 60000) now).
  - rewrite getWaitTime_passed by lia. f_equal. lia.
  - rewrite getWaitTime_pending by lia. simpl. f_equal. lia.
Qed.

Section ObservedMore.

Variable onHit : RateLimitHeaders -> W -> W.
Variable onRetry : Z -> RateLimitHeaders -> W -> W.
Hypothesis Hhit : onRateLimitHit this = Some onHit.
Hypothesis Hretry : onRateLimitRetry this = Some onRetry.

(** X15. A 429 with valid headers followed by a success: with a budget of at
    least one, the call resolves to the value of the re-issued request after
    a single sleep of [retryAfter * 1000 + rateLimitRetryDelay] milliseconds,
    each observer having been called once. *)
Theorem handleRateLimit_succeeds_on_retry (error : AxiosError)
    (st : RateLimitHeaders) (w w' : W) (v : V) (fuel : nat) :
  quota_exceeded Date_parse error st ->
  ge (Int 0) (rateLimitRetryAttempts this) = false ->
  retryFn (world_at_reissue sleep this onHit onRetry 0 st w) = (Resolved v, w') ->
  handle (S fuel) this error retryFn 0 (w, [])
  = Some (Resolved v,
          (w', [HitFired st; RetryFired 1 st;
                Slept (add (mul (retryAfter st) (Int 1000)) (rateLimitRetryDelay this));
                Reissued])).
Proof.
  intros [H429 Hst] Hbudget Hfn. cbn [handleRateLimit].
  rewrite H429, Hbudget, Hst, Hhit, Hretry.
  unfold world_at_reissue, delay_of in Hfn. simpl in Hfn.
  simpl. now rewrite Hfn.
Qed.

End ObservedMore.

End HandlerMore.

(** ** [withRateLimit] *)

Section DecoratorProperties.

Import Decorator.

Context {W R : Type}.
Variable Date_now : W -> Z.
Variable sleep : number -> W -> W.
Variable fn : W -> settled R * W.

Local Abbreviation loop := (loop (R := R) Date_now sleep).

Lemma calls_app (a b : list event) : calls (a ++ b) = (calls a + calls b)%nat.
Proof. unfold calls. now rewrite List.filter_app, length_app. Qed.

Lemma warnings_app (a b : list event) :
  warnings (a ++ b) = (warnings a + warnings b)%nat.
Proof. unfold warnings. now rewrite List.filter_app, length_app. Qed.

(** Counts the calls and warnings of an explicit trace. *)
Ltac tally :=
  rewrite ?calls_app, ?warnings_app; unfold calls, warnings in *;
  cbn [List.filter length app] in *; lia.

(** X16. A failure that is not a rate-limit error passes through the wrapper
    as it is, after that one call and without any wait. *)
Theorem withRateLimit_passes_other_errors (maxRetries : option number)
    (w w' : W) (error : thrown) (fuel : nat) :
  le (Int 0) (default (Int 3) maxRetries) = true ->
  fn w = (Rejected error, w') ->
  RateLimitUtils.isRateLimitError error = false ->
  withRateLimit Date_now sleep (S fuel) fn maxRetries w
  = Some (Rejected error, (w', [Called])).
Proof.
  intros Hm Hfn Hn. unfold withRateLimit. cbn [Decorator.loop fst snd].
  now rewrite Hm, Hfn, Hn.
Qed.

(** X17. With an integer [maxRetries = m] the wrapper always ends and calls
    the function at most [m + 1] times, not at all when [m] is negative. *)
Theorem withRateLimit_bounded (m : Z) (w : W) (fuel : nat) :
  Z.max 0 (m + 1) < Z.of_nat fuel ->
  exists r w' tr,
    withRateLimit Date_now sleep fuel fn (Some (Int m)) w = Some (r, (w', tr)) /\
    Z.of_nat (calls tr) <= Z.max 0 (m + 1).
Proof.
  assert (forall (fuel : nat) attempt last w tr,
            Z.max 0 (m + 1 - attempt) < Z.of_nat fuel ->
            exists r w' tr',
              loop fuel fn (Int m) attempt last (w, tr) = Some (r, (w', tr ++ tr')) /\
              Z.of_nat (calls tr') <= Z.max 0 (m + 1 - attempt)) as Hgen.
  { clear fuel w. induction fuel as [|fuel IH]; intros attempt last w0 tr Hle; [lia|].
    cbn [Decorator.loop fst snd]. rewrite le_Int, lt_Int.
    destruct (Z.leb_spec attempt m) as [Hin|Hout];
      [|exists (Rejected (default undefined last)), w0, [];
        rewrite app_nil_r; split; [reflexivity | tally]].
    destruct (fn w0) as [[v|[e|e|d]] w1]; cbn [RateLimitUtils.isRateLimitError
      RateLimitUtils.getRateLimitInfo];
      try (eexists _, _, _; split; [reflexivity | tally]).
    destruct (Z.ltb_spec attempt m) as [Hlt|Hge];
      [|eexists _, _, _; split; [reflexivity | tally]].
    unfold RateLimitUtils.waitForRateLimit. cbn [fst snd].
    match goal with
    | |- context [if gt ?a ?b then _ else _] => destruct (gt a b)
    end;
      match goal with
      | |- context [Decorator.loop _ _ fuel fn (Int m) (?a + 1) ?l (?w2, ?t)] =>
          destruct (IH (a + 1) l w2 t ltac:(lia)) as (r & w_end & tr_end & -> & Hb)
      end;
      (eexists _, _, _; split; [rewrite <- ?app_assoc; reflexivity | tally]). }
  intros Hfuel. unfold withRateLimit. cbn [default from_option id].
  destruct (Hgen fuel 0 None w [] ltac:(lia)) as (r & w' & tr' & Hrun & Hb).
  exists r, w', tr'. rewrite Z.sub_0_r in Hb. split; assumption.
Qed.


End DecoratorProperties.

(** ** More on [RateLimitBatchProcessor.processAll] *)

Section BatchMore.

Import RateLimitBatchProcessor.

Context {W T R : Type}.
Variable Date_now : W -> Z.
Variable sleep : number -> W -> W.
Variable onProgress : option (progress (W := W)).

Local Abbreviation frame := (frame (W := W) (T := T) (R := R)).
Local Abbreviation process_item := (process_item Date_now sleep onProgress).
Local Abbreviation process_batch := (process_batch Date_now sleep onProgress).
Local Abbreviation chunks := (chunks Date_now sleep).

(** The frame after the pause between two chunks. *)
Local Abbreviation paused f ms :=
  {| self := self f; completed := completed f;
     env := (sleep ms (fst (env f)), snd (env f) ++ [Slept ms]) |}.

(** A property of frames kept by the loop body and by the pause holds when
    the outer loop is left. *)
Lemma chunks_invariant (P : frame -> Prop) (total batchSize : Z) :
  (forall x f, P f -> P (process_item total x f)) ->
  (forall f ms, P f -> P (paused f ms)) ->
  forall fuel i f f',
    chunks fuel onProgress total batchSize i f = Some f' -> P f -> P f'.
Proof.
  intros Hitem Hpause.
  assert (forall xs f, P f -> P (process_batch total xs f)) as Hbatch.
  { induction xs as [|x xs IH]; intros f Hf; [exact Hf|].
    apply IH, Hitem, Hf. }
  induction fuel as [|fuel IH]; intros i f f'; [discriminate|].
  cbn [RateLimitBatchProcessor.chunks].
  destruct (i <? Z.of_nat (length (items (self f)))); [|now intros [= <-]].
  intros Hrun Hf. apply IH in Hrun; [exact Hrun|].
  match goal with
  | |- P (if ?c then _ else _) => destruct c
  end; [apply Hpause|]; apply Hbatch, Hf.
Qed.

Lemma processed_app (a b : list (event (T := T) (R := R))) :
  processed (a ++ b) = processed a ++ processed b.
Proof. unfold processed. apply omap_app. Qed.

Lemma progress_counts_app (a b : list (event (T := T) (R := R))) :
  progress_counts (a ++ b) = progress_counts a ++ progress_counts b.
Proof. unfold progress_counts, progress_calls. now rewrite omap_app, !fmap_app. Qed.

(** What one round of the inner loop adds to the log and to the counts given
    to the observer. *)
Lemma process_item_log (total : Z) (x : T) (f : frame) :
  processor (self (process_item total x f)) = processor (self f) /\
  processed (snd (env (process_item total x f)))
  = processed (snd (env f)) ++ [(x, fst (processor (self f) x (fst (env f))))] /\
  completed (process_item total x f) = completed f + 1 /\
  exists extra,
    progress_counts (snd (env (process_item total x f)))
    = progress_counts (snd (env f)) ++ extra /\
    (extra = [] \/ extra = [completed f + 1] \/
     extra = [completed f; completed f + 1]).
Proof.
  unfold RateLimitBatchProcessor.process_item.
  destruct (processor (self f) x (fst (env f))) as [outcome w] eqn:E.
  destruct outcome as [r|e]; [|destruct e as [e|e|d]];
    destruct onProgress as [cb|];
    unfold RateLimitUtils.waitForRateLimit, fire; simpl;
    repeat match goal with
           | |- context [if gt ?a ?b then _ else _] => destruct (gt a b)
           end;
    simpl; rewrite ?processed_app, ?progress_counts_app;
    change (processed [Processed x ?o]) with [(x, o)];
    rewrite <- ?app_assoc;
    (split; [reflexivity|]); (split; [try reflexivity|]);
    try (split; [reflexivity|]);
    try (eexists; (split; [reflexivity|]); simpl; auto).
Qed.

(** X19. A chunk size of zero or less never gets past the first items: on a
    non-empty list [processAll] does not end, whatever the processor does. *)
Theorem processAll_never_ends (this : t (W := W) (T := T) (R := R))
    (batchSize : option Z) (w : W) :
  items this <> [] ->
  default 10 batchSize <= 0 ->
  forall fuel, processAll Date_now sleep fuel this onProgress batchSize w = None.
Proof.
  intros Hne Hb fuel. unfold processAll.
  assert (forall fuel i (f : frame), i <= 0 -> items (self f) <> [] ->
            chunks fuel onProgress (Z.of_nat (length (items this)))
              (default 10 batchSize) i f = None) as Hloop.
  { clear fuel. induction fuel as [|fuel IH]; intros i f Hi Hf; [reflexivity|].
    cbn [RateLimitBatchProcessor.chunks].
    destruct (Z.ltb_spec i (Z.of_nat (length (items (self f))))) as [_|Hge];
      [|destruct (items (self f)); [congruence | simpl in Hge; lia]].
    apply IH; [lia|].
    set (batch := slice _ _ _).
    destruct (process_batch_advanced Date_now sleep onProgress
                (Z.of_nat (length (items this))) batch f) as (log & _ & Hitems & _).
    match goal with
    | |- items (self (if ?c then _ else _)) <> [] => destruct c
    end; cbn [self]; now rewrite Hitems. }
  now rewrite Hloop.
Qed.

End BatchMore.

Section BatchResults.

Import RateLimitBatchProcessor.

Context {W T R : Type}.
Variable Date_now : W -> Z.
Variable sleep : number -> W -> W.

Lemma log_of_outcomes (g : T -> settled R) (log : list (T * settled R)) :
  Forall (fun p => snd p = g (fst p)) log ->
  log = (fun x => (x, g x)) <$> log.*1.
Proof.
  induction 1 as [|[x o] log Hx _ IH]; [reflexivity|].
  cbn [fst snd] in Hx. subst o.
  change ((x, g x) :: log = (x, g x) :: ((fun x => (x, g x)) <$> log.*1)).
  now f_equal.
Qed.

(** X20. When the outcome of the processor depends on the item alone, the
    output of [processAll] on a fresh instance does not depend on the chunk
    size, on the observer or on the waits: the results are the successes and
    the errors the failures of the items taken in order. *)
Theorem processAll_results_in_order (work : list T)
    (process : T -> W -> settled R * W) (g : T -> settled R)
    (onProgress : option progress) (batchSize : option Z) (w : W) (fuel : nat) :
  (forall x w, fst (process x w) = g x) ->
  1 <= default 10 batchSize ->
  (length work < fuel)%nat ->
  exists out this' st,
    processAll Date_now sleep fuel (constructor work process)
      onProgress batchSize w = Some (out, this', st) /\
    out_results out = successes ((fun x => (x, g x)) <$> work) /\
    out_errors out = failures ((fun x => (x, g x)) <$> work).
Proof.
  intros Hg Hb Hfuel.
  destruct (processAll_appends Date_now sleep (constructor work process) onProgress
              batchSize w fuel Hb Hfuel)
    as (out & this' & w' & tr & Hrun & _ & _ & _ & _ & Hp & Hr & He & _).
  exists out, this', (w', tr). split; [exact Hrun|].
  assert (Forall (fun p => snd p = g (fst p)) (processed tr)) as Hlog.
  { unfold processAll in Hrun.
    destruct (chunks _ _ _ _ _ _ _ _) as [f'|] eqn:Hc; [|discriminate].
    injection Hrun as _ _ Henv.
    assert (tr = snd (env f')) as -> by now rewrite Henv.
    clear Henv Hp Hr He.
    apply (chunks_invariant Date_now sleep onProgress
             (fun f => processor (self f) = process /\
                       Forall (fun p => snd p = g (fst p)) (processed (snd (env f))))
             _ _) in Hc.
    - apply Hc.
    - intros x f [Hproc Hall].
      destruct (process_item_log Date_now sleep onProgress
                  (Z.of_nat (length (items (constructor work process)))) x f)
        as (Hp' & Hl & _).
      split; [congruence|]. rewrite Hl. apply Forall_app. split; [exact Hall|].
      constructor; [|constructor]. cbn [fst snd]. now rewrite Hproc, Hg.
    - intros f ms [Hproc Hall]. split; [exact Hproc|].
      cbn [env snd]. unfold processed in *. rewrite omap_app. simpl.
      now rewrite app_nil_r.
    - split; [reflexivity | constructor]. }
  apply log_of_outcomes in Hlog. simpl in Hp, Hr, He. rewrite Hp in Hlog.
  now rewrite Hr, He, Hlog.
Qed.

(** X21. The counts handed to the progress observer never decrease and stay
    between 0 and the number of items, also when extra calls are made on
    rate-limit failures. *)
Theorem processAll_progress_counts (work : list T)
    (process : T -> W -> settled R * W) (onProgress : option progress)
    (batchSize : option Z) (w : W) (fuel : nat) :
  1 <= default 10 batchSize ->
  (length work < fuel)%nat ->
  exists out this' w' tr,
    processAll Date_now sleep fuel (constructor work process)
      onProgress batchSize w = Some (out, this', (w', tr)) /\
    StronglySorted Z.le (progress_counts tr) /\
    Forall (fun c => 0 <= c <= Z.of_nat (length work)) (progress_counts tr).
Proof.
  intros Hb Hfuel. unfold processAll.
  destruct (chunks_advanced Date_now sleep onProgress
              (Z.of_nat (length work)) (default 10 batchSize) fuel Hb 0
              {| self := constructor work process; completed := 0; env := (w, []) |})
    as (f' & Hc & log & _ & _ & _ & _ & _ & Hdone & _); [lia | simpl; lia |].
  cbn [constructor items]. rewrite Hc.
  exists {| out_results := results (self f'); out_errors := errors (self f') |},
         (self f'), (fst (env f')), (snd (env f')).
  rewrite <- surjective_pairing. split; [reflexivity|].
  apply (chunks_invariant Date_now sleep onProgress
           (fun f => 0 <= completed f /\
                     StronglySorted Z.le (progress_counts (snd (env f))) /\
                     Forall (fun c => 0 <= c <= completed f) (progress_counts (snd (env f))))
           _ _) in Hc.
  - destruct Hc as (_ & Hs & Hall). split; [exact Hs|].
    rewrite drop_0 in Hdone. simpl in Hdone. rewrite Hdone in Hall.
    eapply Forall_impl; [exact Hall|]. simpl. intros; lia.
  - intros x f (H0 & Hs & Hall).
    destruct (process_item_log Date_now sleep onProgress (Z.of_nat (length work)) x f)
      as (_ & _ & Hcount & extra & Hextra & Hcases).
    rewrite Hcount, Hextra. split; [lia|]. split.
    + apply StronglySorted_app_2; [|exact Hs|].
      * intros c1 c2 H1 H2. rewrite Forall_forall in Hall.
        specialize (Hall c1 H1).
        destruct Hcases as [-> | [-> | ->]];
          rewrite ?elem_of_cons, ?elem_of_nil in H2; intuition lia.
      * destruct Hcases as [-> | [-> | ->]]; repeat constructor; lia.
    + apply Forall_app. split.
      * eapply Forall_impl; [exact Hall|]. simpl. intros; lia.
      * destruct Hcases as [-> | [-> | ->]]; repeat constructor; lia.
  - intros f ms (H0 & Hs & Hall). cbn [env snd completed].
    unfold progress_counts, progress_calls in *. rewrite omap_app. simpl.
    now rewrite app_nil_r.
  - simpl. repeat split; try constructor; lia.
Qed.

End BatchResults.

(** ** The further properties on concrete values *)

(** [parseRateLimitHeaders_reads_integers] on the well-formed headers. *)
Lemma parseRateLimitHeaders_reads_integers_witness :
  RateLimitHandler.parseRateLimitHeaders clock_parse (mkAxiosResponse 200 valid_headers)
  = Some {| limit := Int 60; remaining := Int 0;
            reset := mkDate (clock_parse "2024-01-01T12:00:00Z");
            retryAfter := Int 30 |}.
Proof.
  apply (parseRateLimitHeaders_reads_integers clock_parse
           (mkAxiosResponse 200 valid_headers) 60 0 30 "2024-01-01T12:00:00Z");
    try (simpl; lia); try (vm_compute; reflexivity); discriminate.
Defined.

(** [shouldThrottle_unreadable] on a response without
    [x-ratelimit-remaining]. *)
Lemma shouldThrottle_unreadable_witness :
  shouldThrottle clock_parse (mkAxiosResponse 200 headers_without_remaining) = false.
Proof.
  apply shouldThrottle_unreadable. left.
  exists "x-ratelimit-remaining"%string. split.
  - unfold required_headers. rewrite !elem_of_cons. auto.
  - left. vm_compute. reflexivity.
Defined.

(** [shouldThrottle_threshold] on a response with nothing remaining. *)
Lemma shouldThrottle_threshold_witness :
  (shouldThrottle clock_parse (mkAxiosResponse 200 valid_headers) = true
   <-> 0 <= Z.max 1 (60 / 10)) /\
  (0 <= 1 -> shouldThrottle clock_parse (mkAxiosResponse 200 valid_headers) = true).
Proof.
  apply (shouldThrottle_threshold clock_parse (mkAxiosResponse 200 valid_headers)
           60 0 1704110400000 30).
  - simpl. lia.
  - vm_compute. reflexivity.
Defined.

(** [handleRateLimit_bounded] with the default budget of 3. *)
Lemma handleRateLimit_bounded_witness :
  exists r w' tr,
    RateLimitHandler.handleRateLimit clock_parse id clock_sleep 4
      handler_default error_429 always_429 0 (0, []) = Some (r, (w', tr)) /\
    Z.of_nat (RateLimitHandler.reissues tr) <= Z.max 0 3.
Proof.
  apply (handleRateLimit_bounded clock_parse id clock_sleep always_429
           handler_default 3 error_429 0 eq_refl 4).
  simpl. lia.
Defined.

(** [handleRateLimit_rejects_without_response] on a 429 followed by a 500. *)
Lemma handleRateLimit_rejects_without_response_witness :
  has_response
    (ThrownRateLimit
       {| message := "Rate limit exceeded. Please try again later.";
          rateLimitHeaders := integer_state 60 0 91000 60 |}) = None.
Proof.
  eapply (handleRateLimit_rejects_without_response clock_parse id clock_sleep
            always_500 handler_default 4 error_429 0 (0, [])).
  vm_compute. reflexivity.
Defined.

(** [handleRateLimit_unbounded] with a budget that is [NaN]. *)
Lemma handleRateLimit_unbounded_witness :
  RateLimitHandler.handleRateLimit clock_parse id clock_sleep 100
    handler_unbounded error_429 always_429 0 (0, []) = None.
Proof.
  apply (handleRateLimit_unbounded clock_parse id clock_sleep always_429
           handler_unbounded error_429).
  - left. reflexivity.
  - vm_compute. reflexivity.
  - intros w. exists error_429, w. split; [reflexivity | vm_compute; reflexivity].
Defined.

(** [handleRateLimit_fallback_backoff] with the default budget and base
    delay: sleeps of 1, 2 and 4 seconds. *)
Lemma handleRateLimit_fallback_backoff_witness :
  RateLimitHandler.handleRateLimit clock_parse id clock_sleep 4
    handler_default error_429_bare always_429_bare 0 (0, [])
  = Some (Rejected (ThrownRateLimit
            {| message := "Rate limit exceeded. Please try again later.";
               rateLimitHeaders :=
                 integer_state 60 0
                   (id (fallback_world clock_sleep always_429_bare handler_default
                          (Z.to_nat 3) 0 0) + 60000) 60 |}),
          (fallback_world clock_sleep always_429_bare handler_default (Z.to_nat 3) 0 0,
           concat (fallback_events handler_default <$> seqZ 0 3))).
Proof.
  apply (handleRateLimit_fallback_backoff clock_parse id clock_sleep
           always_429_bare handler_default 3 1000 error_429_bare 0).
  - reflexivity.
  - lia.
  - reflexivity.
  - lia.
  - vm_compute. reflexivity.
  - vm_compute. reflexivity.
  - intros w. exists error_429_bare, w.
    split; [reflexivity|]. split; vm_compute; reflexivity.
  - simpl. lia.
Defined.

(** The same run, computed. *)
Example handleRateLimit_fallback_backoff_run :
  RateLimitHandler.handleRateLimit clock_parse id clock_sleep 4
    handler_default error_429_bare always_429_bare 0 (0, [])
  = Some (Rejected (ThrownRateLimit
            {| message := "Rate limit exceeded. Please try again later.";
               rateLimitHeaders := integer_state 60 0 67000 60 |}),
          (7000,
           [RateLimitHandler.Slept (Int 1000); RateLimitHandler.Reissued;
            RateLimitHandler.Slept (Int 2000); RateLimitHandler.Reissued;
            RateLimitHandler.Slept (Int 4000); RateLimitHandler.Reissued])).
Proof. vm_compute. reflexivity. Qed.

(** [createRateLimitError_fallback_wait] one second after the error. *)
Lemma createRateLimitError_fallback_wait_witness :
  rateLimitHeaders (RateLimitHandler.createRateLimitError clock_parse id error_429_bare 0)
    = integer_state 60 0 (id 0 + 60000) 60 /\
  RateLimitUtils.getWaitTime
    (rateLimitHeaders (RateLimitHandler.createRateLimitError clock_parse id error_429_bare 0))
    1000
    = Int (Z.max 0 (id 0 + 60000 - 1000)).
Proof.
  apply (createRateLimitError_fallback_wait clock_parse id error_429_bare 0 1000).
  vm_compute. reflexivity.
Defined.

(** [handleRateLimit_succeeds_on_retry]: one sleep of 31 seconds. *)
Lemma handleRateLimit_succeeds_on_retry_witness :
  let st := integer_state 60 0 1704110400000 30 in
  RateLimitHandler.handleRateLimit clock_parse id clock_sleep 1
    handler_observed error_429 succeeds 0 (0, [])
  = Some (Resolved tt,
          (31000,
           [RateLimitHandler.HitFired st; RateLimitHandler.RetryFired 1 st;
            RateLimitHandler.Slept
              (add (mul (retryAfter st) (Int 1000))
                   (RateLimitHandler.rateLimitRetryDelay handler_observed));
            RateLimitHandler.Reissued])).
Proof.
  apply (handleRateLimit_succeeds_on_retry clock_parse id clock_sleep succeeds
           handler_observed (fun _ w => w) (fun _ _ w => w) eq_refl eq_refl
           error_429 (integer_state 60 0 1704110400000 30) 0 31000 tt 0).
  - split; vm_compute; reflexivity.
  - reflexivity.
  - vm_compute. reflexivity.
Defined.

(** [withRateLimit_passes_other_errors] with the default of 3 retries. *)
Lemma withRateLimit_passes_other_errors_witness :
  Decorator.withRateLimit id clock_sleep 1 fails_otherwise None 0
  = Some (Rejected (ThrownOther "ECONNRESET"), (0, [Decorator.Called])).
Proof.
  apply (withRateLimit_passes_other_errors id clock_sleep fails_otherwise None
           0 0 (ThrownOther "ECONNRESET") 0); reflexivity.
Defined.

(** [withRateLimit_bounded] with 3 retries. *)
Lemma withRateLimit_bounded_witness :
  exists r w' tr,
    Decorator.withRateLimit id clock_sleep 5 fails_rate_limited (Some (Int 3)) 0
    = Some (r, (w', tr)) /\
    Z.of_nat (Decorator.calls tr) <= Z.max 0 (3 + 1).
Proof.
  apply (withRateLimit_bounded id clock_sleep fails_rate_limited 3 0 5). simpl. lia.
Defined.


(** The same run, computed: the first wait lasts until the reset at 500 ms,
    after which no wait is needed. *)
Example withRateLimit_always_rate_limited_run :
  Decorator.withRateLimit id clock_sleep 5 fails_rate_limited (Some (Int 3)) 0
  = let e := {| message := "Rate limit exceeded. Retry after 1 seconds.";
                rateLimitHeaders := integer_state 60 0 500 1 |} in
    Some (Rejected (ThrownRateLimit e),
          (500,
           [Decorator.Called;
            Decorator.Warned "Rate limit hit (attempt 1/4). Waiting 1 seconds...";
            Decorator.Waited (Int 500);
            Decorator.Called;
            Decorator.Warned "Rate limit hit (attempt 2/4). Waiting 1 seconds...";
            Decorator.Called;
            Decorator.Warned "Rate limit hit (attempt 3/4). Waiting 1 seconds...";
            Decorator.Called])).
Proof. vm_compute. reflexivity. Qed.

(** [processAll_never_ends] with a chunk size of 0. *)
Lemma processAll_never_ends_witness :
  RateLimitBatchProcessor.processAll id clock_sleep 50
    (RateLimitBatchProcessor.constructor [1; 2; 3] doubling) None (Some 0) 0 = None.
Proof.
  apply (processAll_never_ends id clock_sleep None
           (RateLimitBatchProcessor.constructor [1; 2; 3] doubling) (Some 0) 0).
  - discriminate.
  - simpl. lia.
Defined.

(** [processAll_results_in_order] on three items in chunks of 2. *)
Lemma processAll_results_in_order_witness :
  exists out this' st,
    RateLimitBatchProcessor.processAll id clock_sleep 4
      (RateLimitBatchProcessor.constructor [1; 2; 3] odd_only)
      None (Some 2) 0 = Some (out, this', st) /\
    RateLimitBatchProcessor.out_results out
    = RateLimitBatchProcessor.successes
        ((fun x => (x, fst (odd_only x 0))) <$> [1; 2; 3]) /\
    RateLimitBatchProcessor.out_errors out
    = RateLimitBatchProcessor.failures
        ((fun x => (x, fst (odd_only x 0))) <$> [1; 2; 3]).
Proof.
  apply (processAll_results_in_order id clock_sleep [1; 2; 3] odd_only
           (fun x => fst (odd_only x 0)) None (Some 2) 0 4).
  - intros x w. unfold odd_only. now destruct (Z.even x).
  - simpl. lia.
  - simpl. lia.
Defined.

(** [processAll_progress_counts] on a run with a rate-limit failure: the
    counts are 0, 1, 2. *)
Lemma processAll_progress_counts_witness :
  exists out this' w' tr,
    RateLimitBatchProcessor.processAll id clock_sleep 3
      (RateLimitBatchProcessor.constructor [1; 2] limited_first)
      (Some silent) None 0 = Some (out, this', (w', tr)) /\
    StronglySorted Z.le (progress_counts tr) /\
    Forall (fun c => 0 <= c <= Z.of_nat (length [1; 2])) (progress_counts tr).
Proof.
  apply (processAll_progress_counts id clock_sleep [1; 2] limited_first
           (Some silent) None 0 3); simpl; lia.
Defined.
